(** * Profile Assistant: rule matching and mod-list rewriting

    A shallow embedding of the core of the Profile Assistant plugin
    (base/aspect_ratio.py, base/ini.py, base/profile.py,
    base/configuration.py and assistant.py) and the properties of that core.

    Conventions of the embedding.
    - A Python [str] is a [string]; its characters are the code points
      0..255, for which the character classes of [str.strip] and [int] are
      written out below.
    - Python integers are [Z]; [//] by a positive divisor is [Z.div].
    - A call that may raise returns a [result]: [Ok v] or [Raise e].
    - A [dict] with string keys is a [gmap string _]; [list(set(l))] is
      [elements (list_to_set l)], an order fixed by the map but not by [l].
    - The files the plugin reads and writes, and the records handed to the
      logger while [set_configuration] runs, are fields of an explicit
      [World].
    - Of [configparser] the model keeps the lookup of a value with its
      fallback.  Its handling of ['%'] (the interpolation of a value that is
      read, the check of a value that is assigned) and the errors of
      [config.read] are left out: files are taken to parse, and names and
      values to hold no ['%']. *)

From Stdlib Require Import ZArith Ascii String List Lia.
From Stdlib Require Import DecimalString DecimalPos DecimalN DecimalZ.
From stdpp Require Import gmap strings list fin_maps.

(** ** Exceptions *)

Inductive exn : Set :=
| ValueError
| ZeroDivisionError
| FileNotFoundError.

Inductive result (A : Type) : Type :=
| Ok (a : A)
| Raise (e : exn).

Arguments Ok {A} a.
Arguments Raise {A} e.

(** Sequencing stops at the first exception, as Python does. *)
#[global] Instance result_ret : MRet result := @Ok.
#[global] Instance result_bind : MBind result := λ A B k m,
  match m with
  | Ok a => k a
  | Raise e => Raise e
  end.

(** ** The [str] and [int] builtins the plugin calls *)

Module PyStr.

Definition code (c : ascii) : N := N_of_ascii c.

(** [str.isspace] on one character below 256: the controls 9..13 and
    28..31, the space, NEL and the no-break space. *)
Definition is_space (c : ascii) : bool :=
  let n := code c in
  ((9 <=? n) && (n <=? 13) || (28 <=? n) && (n <=? 32)
   || (n =? 133) || (n =? 160))%N.

(** The blanks [int] skips around a literal: as [is_space] without the
    separators 28..31. *)
Definition is_int_space (c : ascii) : bool :=
  let n := code c in
  ((9 <=? n) && (n <=? 13) || (n =? 32) || (n =? 133) || (n =? 160))%N.

(** [not s] for a string and [not l] for a list. *)
Definition is_empty (s : string) : bool :=
  match s with
  | EmptyString => true
  | String _ _ => false
  end.

Definition is_nil {A : Type} (l : list A) : bool :=
  match l with
  | [] => true
  | _ :: _ => false
  end.

Section Strip.
Variable blank : ascii → bool.

Fixpoint lstrip_with (s : string) : string :=
  match s with
  | EmptyString => EmptyString
  | String c r => if blank c then lstrip_with r else s
  end.

Fixpoint rstrip_with (s : string) : string :=
  match s with
  | EmptyString => EmptyString
  | String c r =>
      let r' := rstrip_with r in
      if blank c && is_empty r' then EmptyString else String c r'
  end.

Definition strip_with (s : string) : string := lstrip_with (rstrip_with s).
End Strip.

(** [s.strip()] *)
Definition strip : string → string := strip_with is_space.

(** [s.split(sep)] for a one-character separator. *)
Fixpoint split (sep : ascii) (s : string) : list string :=
  match s with
  | EmptyString => [EmptyString]
  | String c r =>
      if decide (c = sep) then EmptyString :: split sep r
      else match split sep r with
           | [] => [String c EmptyString]
           | w :: ws => String c w :: ws
           end
  end.

(** [s.replace(old, new)]; [skip] counts the characters of an occurrence
    of [old] that is being consumed. *)
Fixpoint replace_go (old new : string) (skip : nat) (s : string) : string :=
  match s with
  | EmptyString => EmptyString
  | String c r =>
      match skip with
      | S k => replace_go old new k r
      | O =>
          if String.prefix old s
          then new +:+ replace_go old new (String.length old - 1) r
          else String c (replace_go old new 0 r)
      end
  end.

(** Used with a non-empty [old] only. *)
Definition replace (old new s : string) : string := replace_go old new 0 s.

Definition digit_val (c : ascii) : option Z :=
  let n := code c in
  if ((48 <=? n) && (n <=? 57))%N then Some (Z.of_N n - 48)%Z else None.

(** Digits after the first one: a digit, or one underscore and a digit. *)
Fixpoint int_digits (acc : Z) (s : string) : option Z :=
  match s with
  | EmptyString => Some acc
  | String c r =>
      match digit_val c with
      | Some d => int_digits (10 * acc + d) r
      | None =>
          if decide (c = "_"%char) then
            match r with
            | String c' r' =>
                match digit_val c' with
                | Some d => int_digits (10 * acc + d) r'
                | None => None
                end
            | EmptyString => None
            end
          else None
      end
  end.

Definition int_literal (s : string) : option Z :=
  match s with
  | String c r =>
      match digit_val c with
      | Some d => int_digits d r
      | None => None
      end
  | EmptyString => None
  end.

(** [int(s)] in base ten: [None] stands for [ValueError].  The
    interpreter's optional cap on the number of digits is a deployment
    setting and is left out. *)
Definition int (s : string) : option Z :=
  match strip_with is_int_space s with
  | String "+" r => int_literal r
  | String "-" r => Z.opp <$> int_literal r
  | t => int_literal t
  end.

(** [str(n)], also what an f-string puts for an integer: the decimal
    digits, after a minus sign when [n] is negative (the cap on the number
    of digits left out, as for [int]). *)
Definition str (n : Z) : string := NilZero.string_of_int (Z.to_int n).

End PyStr.

(** ** base/aspect_ratio.py *)

Module AspectRatio.

Record t : Set := Build { x : Z; y : Z }.

(** [AspectRatio.__init__] *)
Definition init (x0 y0 : Z) : result t :=
  if ((x0 =? 0) || (y0 =? 0))%Z then Raise ValueError
  else
    let gcd_self := Z.gcd x0 y0 in
    Ok (Build (x0 / gcd_self) (y0 / gcd_self)).

(** The two statements under [try] shared by [is_equal] and
    [from_string]: unpack the split into two names and convert both; any
    [ValueError] inside gives [None]. *)
Definition parse_pair (ratio_str : string) : option (Z * Z) :=
  match PyStr.split ":" ratio_str with
  | [x_str; y_str] =>
      match PyStr.int x_str, PyStr.int y_str with
      | Some x_ratio, Some y_ratio => Some (x_ratio, y_ratio)
      | _, _ => None
      end
  | _ => None
  end.

(** [AspectRatio.is_equal] *)
Definition is_equal (self : t) (ratio_str : string) : result bool :=
  match parse_pair ratio_str with
  | None => Raise ValueError
  | Some (x_ratio, y_ratio) =>
      let gcd_ratio := Z.gcd x_ratio y_ratio in
      if (gcd_ratio =? 0)%Z then Raise ZeroDivisionError
      else
        Ok ((x self =? x_ratio / gcd_ratio)%Z
            && (y self =? y_ratio / gcd_ratio)%Z)
  end.

(** [AspectRatio.from_string] *)
Definition from_string (ratio_str : option string) : result (option t) :=
  match ratio_str with
  | None => Ok None
  | Some s =>
      match parse_pair s with
      | None => Ok None
      | Some (x_ratio, y_ratio) =>
          r ← init x_ratio y_ratio; Ok (Some r)
      end
  end.

(** [AspectRatio.__str__] *)
Definition to_string (self : t) : string :=
  PyStr.str (x self) +:+ ":" +:+ PyStr.str (y self).

End AspectRatio.

(** ** The files and the log the plugin works on *)

(** The records handed to the logger while [set_configuration] runs; each
    constructor stands for one message template of the source, but
    [DebugCheckVram], which stands for the four of [check_vram]: they print
    the same values, the bounds that are set. *)
Inductive log_record : Set :=
| ErrorNoProfile (name profile : string)
| ErrorNoEnableList (name m : string)
| ErrorNoDisableList (name m : string)
| DebugNoMods (name : string)
| DebugMods (enabled disabled : list string)
| InfoActivated (name : string) (switched : option string)
    (counts : option (nat * nat))
| DebugPassed (name : string)
| DebugCheckVram (vram : Z) (min_vram max_vram : option Z).

(** [selected_profile] is the value of [General/selected_profile] in the
    host's ini file, [profile_dirs] the directories [get_profiles] finds,
    [modlists] the text of [modlist.txt] in each profile directory (keyed by
    the directory name [current_profile] resolves; the text is the one a
    text-mode [open] gives and takes, line ends being line feeds), [log]
    the records logged so far, oldest first. *)
Record World : Type := mkWorld {
  selected_profile : option string;
  profile_dirs : list string;
  modlists : gmap string string;
  log : list log_record
}.

Definition log_add (r : log_record) (w : World) : World :=
  mkWorld (selected_profile w) (profile_dirs w) (modlists w) (log w ++ [r]).

Definition log_all (rs : list log_record) (w : World) : World :=
  mkWorld (selected_profile w) (profile_dirs w) (modlists w) (log w ++ rs).

(** ** base/profile.py *)

Module Profile.

(** The line feed. *)
Definition nl : string := String "010" EmptyString.

(** [file.readlines()]: every line keeps its terminator; the last one
    may lack it. *)
Fixpoint readlines (text : string) : list string :=
  match text with
  | EmptyString => []
  | String c r =>
      if decide (c = "010"%char) then nl :: readlines r
      else match readlines r with
           | [] => [String c EmptyString]
           | l :: ls => String c l :: ls
           end
  end.

(** [file.writelines(lines)] into an emptied file. *)
Definition writelines (lines : list string) : string :=
  foldr String.app EmptyString lines.

(** [Profile.get_profiles]: the directories with an [archives.txt]. *)
Definition get_profiles (w : World) : list string := profile_dirs w.

(** [Profile.change_profile].  Of the host's ini file, which the source
    reads, changes and writes back whole, the model keeps the value of
    [General/selected_profile]; the parser's check of the assigned value
    (it refuses a ['%'] outside ['%%'] and ['%(name)s']) is left out,
    profile names being taken to hold no ['%']. *)
Definition change_profile (name : string) (w : World) : World :=
  mkWorld (Some ("@ByteArray(" +:+ name +:+ ")"))
          (profile_dirs w) (modlists w) (log w).

(** [Profile.current_profile], up to the path of the profiles directory;
    the parser's interpolation of ['%'] in the value it reads is left out,
    as in [change_profile]. *)
Definition current_profile (w : World) : string :=
  PyStr.replace ")" ""
    (PyStr.replace "@ByteArray(" "" (default "" (selected_profile w))).

(** [Profile.get_modlist_file]: the file is named by its profile. *)
Definition get_modlist_file (w : World) : string := current_profile w.

(** One turn of the loop of [modify_modlist_file]. *)
Definition modify_line (enabled disabled : list string)
    (modified_lines : list string) (line0 : string) : list string :=
  let line := PyStr.strip line0 in
  if String.length line <? 2 then modified_lines
  else
    match line with
    | EmptyString => modified_lines
    | String sign rest =>
        let name := PyStr.strip rest in
        if decide (name ∈ enabled) then
          modified_lines ++ ["+" +:+ name +:+ nl]
        else if decide (name ∈ disabled) then
          modified_lines ++ ["-" +:+ name +:+ nl]
        else
          modified_lines ++ [String sign EmptyString +:+ name +:+ nl]
    end.

(** The loop of [modify_modlist_file], from the empty [modified_lines]. *)
Definition modify_lines (enabled disabled lines : list string)
    : list string :=
  fold_left (modify_line enabled disabled) lines [].

(** [Profile.modify_modlist_file] *)
Definition modify_modlist_file (filename : string)
    (enabled disabled : list string) (w : World) : result World :=
  match modlists w !! filename with
  | None => Raise FileNotFoundError
  | Some text =>
      let lines := readlines text in
      let modified_lines := modify_lines enabled disabled lines in
      Ok (mkWorld (selected_profile w) (profile_dirs w)
            (<[filename := writelines modified_lines]> (modlists w))
            (log w))
  end.

End Profile.

(** ** base/ini.py *)

Module Ini.

(** A rule file after [config.read]: the named sections and the
    [DEFAULT] section, option names as the parser stores them
    (lower case), values as [get] returns them.  The file is taken to
    parse and its values to hold no ['%']: the errors of [config.read] and
    the interpolation done by [get] are left out. *)
Record ConfigParser : Type := mkConfig {
  sections : gmap string (gmap string string);
  defaults : gmap string string
}.

Definition lower_char (c : ascii) : ascii :=
  let n := PyStr.code c in
  if ((65 <=? n) && (n <=? 90))%N then ascii_of_N (n + 32) else c.

(** The parser's [optionxform] on the option names of the source, which
    are ASCII. *)
Fixpoint optionxform (s : string) : string :=
  match s with
  | EmptyString => EmptyString
  | String c r => String (lower_char c) (optionxform r)
  end.

(** [config.has_section(section)] *)
Definition has_section (config : ConfigParser) (section : string) : bool :=
  bool_decide (is_Some (sections config !! section)).

(** [config.get(section, key)] before the fallback: [None] stands for
    [NoSectionError] and [NoOptionError]. *)
Definition lookup (config : ConfigParser) (section key : string)
    : option string :=
  let key := optionxform key in
  match sections config !! section with
  | Some d =>
      match d !! key with
      | Some v => Some v
      | None => defaults config !! key
      end
  | None =>
      if decide (section = "DEFAULT") then defaults config !! key else None
  end.

(** [config.get(section, key, fallback=fallback)] *)
Definition get (config : ConfigParser) (section key fallback : string)
    : string :=
  default fallback (lookup config section key).

(** [config.getlist(section, key, fallback=[])], the converter being
    [ConfigParserMultiValues.getlist]. *)
Definition getlist (config : ConfigParser) (section key : string)
    : list string :=
  match lookup config section key with
  | Some value => PyStr.split "010" value
  | None => []
  end.

(** [int_or_none] *)
Definition int_or_none (value : string) : option Z := PyStr.int value.

End Ini.

(** ** base/configuration.py *)

Module Configuration.

Record t : Type := Build {
  name : string;
  profile : option string;
  enable_mods : list string;
  disable_mods : list string;
  min_vram : option Z;
  max_vram : option Z;
  aspect_ratio : option AspectRatio.t;
  system_language : option string
}.

(** [Configuration.check_aspect_ratio] *)
Definition check_aspect_ratio (self : t) (ratio_str : string)
    : result bool :=
  match aspect_ratio self with
  | None => Ok true
  | Some a => AspectRatio.is_equal a ratio_str
  end.

(** [Configuration.check_vram]; the record it hands to the logger is in
    [check_records]. *)
Definition check_vram (self : t) (vram : Z) : bool :=
  match min_vram self, max_vram self with
  | None, None => true
  | Some mn, None => (mn <=? vram)%Z
  | None, Some mx => (mx >? vram)%Z
  | Some mn, Some mx => ((mx >? vram) && (vram >=? mn))%Z
  end.

(** [Configuration.check_system_language] *)
Definition check_system_language (self : t) (language : string) : bool :=
  match system_language self with
  | None => true
  | Some l => bool_decide (l = language)
  end.

(** [Configuration.check]: [and] evaluates its operands left to right and
    stops at a false one. *)
Definition check (self : t) (vram : Z) (ratio_str language : string)
    : result bool :=
  a ← check_aspect_ratio self ratio_str;
  Ok (a && check_vram self vram && check_system_language self language).

(** What [check] hands to the logger: the record of [check_vram], which
    is called when the aspect ratio check has returned [True]. *)
Definition check_records (self : t) (vram : Z) (ratio_str : string)
    : list log_record :=
  match check_aspect_ratio self ratio_str with
  | Ok true => [DebugCheckVram vram (min_vram self) (max_vram self)]
  | _ => []
  end.

(** The first step of [do]: the profile switch. *)
Definition switch_profile (self : t) (profiles : list string) (w : World)
    : option string * World :=
  match profile self with
  | Some p =>
      if decide (p ∈ profiles) then (Some p, Profile.change_profile p w)
      else (None, log_add (ErrorNoProfile (name self) p) w)
  | None => (None, w)
  end.

(** One turn of either loop over group names in [do]: [found] is the
    list being extended, [missing] builds the error record. *)
Definition collect_step (mod_lists : gmap string (list string))
    (missing : string → log_record)
    (st : list string * World) (m : string) : list string * World :=
  match mod_lists !! m with
  | Some mods => (st.1 ++ mods, st.2)
  | None => (st.1, log_add (missing m) st.2)
  end.

Definition collect (mod_lists : gmap string (list string))
    (missing : string → log_record) (names : list string) (w : World)
    : list string * World :=
  fold_left (collect_step mod_lists missing) names ([], w).

(** [list(set(l))] *)
Definition list_set (l : list string) : list string :=
  elements (list_to_set l : gset string).

(** The two name lists [do] passes to the rewrite. *)
Definition final_lists (enabled disabled : list string)
    : list string * list string :=
  let enabled := list_set enabled in
  let disabled := list_set disabled in
  let filtered_disabled := filter (λ item, item ∉ enabled) disabled in
  (enabled, filtered_disabled).

(** [Configuration.do].  The tests [if self.enable_mods] and
    [if self.disable_mods] only skip a loop over an empty list. *)
Definition do (self : t) (profiles : list string)
    (mod_lists : gmap string (list string)) (w : World) : result World :=
  let '(switched, w) := switch_profile self profiles w in
  let '(enabled, w) :=
    collect mod_lists (ErrorNoEnableList (name self)) (enable_mods self) w in
  let '(disabled, w) :=
    collect mod_lists (ErrorNoDisableList (name self)) (disable_mods self) w in
  if PyStr.is_nil enabled && PyStr.is_nil disabled then
    Ok (log_add (InfoActivated (name self) switched None)
          (log_add (DebugNoMods (name self)) w))
  else
    let '(enabled, filtered_disabled) := final_lists enabled disabled in
    let w := log_add (DebugMods enabled filtered_disabled) w in
    let w :=
      log_add (InfoActivated (name self) switched
                 (Some (length enabled, length filtered_disabled))) w in
    Profile.modify_modlist_file (Profile.get_modlist_file w)
      enabled filtered_disabled w.

(** [item and item.strip()] *)
Definition not_blank (item : string) : bool :=
  negb (PyStr.is_empty item) && negb (PyStr.is_empty (PyStr.strip item)).

Definition none_if_empty (s : string) : option string :=
  if PyStr.is_empty s then None else Some s.

(** [if m not in mod_lists: mod_lists[m] = []] for every [m]. *)
Definition register_groups (names : list string)
    (mod_lists : gmap string (list string)) : gmap string (list string) :=
  fold_left
    (λ ml m, match ml !! m with
             | None => <[m := []]> ml
             | Some _ => ml
             end)
    names mod_lists.

(** One turn of the loop over the names listed under [General/Settings]. *)
Definition load_section (config : Ini.ConfigParser)
    (st : list t * gmap string (list string)) (section : string)
    : result (list t * gmap string (list string)) :=
  let '(settings, mod_lists) := st in
  if Ini.has_section config section then
    let profile := Ini.get config section "Profile" "" in
    let enable_mods :=
      PyStr.split "," (Ini.get config section "EnableMods" "") in
    let disable_mods :=
      PyStr.split "," (Ini.get config section "DisableMods" "") in
    let min_vram := Ini.int_or_none (Ini.get config section "MinVram" "") in
    let max_vram := Ini.int_or_none (Ini.get config section "MaxVram" "") in
    let aspect_ratio := Ini.get config section "AspectRatio" "" in
    let system_language := Ini.get config section "SystemLanguage" "" in
    let profile := none_if_empty profile in
    let aspect_ratio := none_if_empty aspect_ratio in
    let system_language := none_if_empty system_language in
    let enable_mods := List.filter not_blank enable_mods in
    let disable_mods := List.filter not_blank disable_mods in
    let mod_lists := register_groups enable_mods mod_lists in
    let mod_lists := register_groups disable_mods mod_lists in
    ratio ← AspectRatio.from_string aspect_ratio;
    Ok (settings ++ [Build section profile enable_mods disable_mods
                       min_vram max_vram ratio system_language],
        mod_lists)
  else Ok st.

Fixpoint load_sections (config : Ini.ConfigParser)
    (names : list string) (st : list t * gmap string (list string))
    : result (list t * gmap string (list string)) :=
  match names with
  | [] => Ok st
  | section :: rest =>
      st' ← load_section config st section;
      load_sections config rest st'
  end.

(** The loop that fills the groups that have a section of their name. *)
Definition fill_groups (config : Ini.ConfigParser)
    (mod_lists : gmap string (list string)) : gmap string (list string) :=
  map_imap
    (λ section mods,
       Some (if Ini.has_section config section
             then Ini.getlist config section "Mod"
             else mods))
    mod_lists.

(** [Configuration.load_configurations]; [file] is [None] when the rule
    file does not exist. *)
Definition load_configurations (file : option Ini.ConfigParser)
    : result (list t * gmap string (list string)) :=
  match file with
  | None => Ok ([], ∅)
  | Some config =>
      let configuration_sections :=
        PyStr.split "," (Ini.get config "General" "Settings" "") in
      '(settings, mod_lists) ←
        load_sections config configuration_sections ([], ∅);
      Ok (settings, fill_groups config mod_lists)
  end.

End Configuration.

(** ** assistant.py *)

Module ProfileAssistant.

Record t : Type := Build {
  vram : Z;
  aspect_ratio : string;
  system_language : string;
  configurations : list Configuration.t;
  mod_lists : gmap string (list string)
}.

(** The loop of [set_configuration] over the configurations left. *)
Fixpoint apply_configurations (self : t) (profiles : list string)
    (cs : list Configuration.t) (w : World) : result World :=
  match cs with
  | [] => Ok w
  | c :: rest =>
      passed ← Configuration.check c (vram self) (aspect_ratio self)
                 (system_language self);
      let w :=
        log_all (Configuration.check_records c (vram self)
                   (aspect_ratio self)) w in
      if (passed : bool) then
        let w := log_add (DebugPassed (Configuration.name c)) w in
        w' ← Configuration.do c profiles (mod_lists self) w;
        apply_configurations self profiles rest w'
      else apply_configurations self profiles rest w
  end.

(** [ProfileAssistant.set_configuration] *)
Definition set_configuration (self : t) (w : World) : result World :=
  let profiles := Profile.get_profiles w in
  apply_configurations self profiles (configurations self) w.

(** The part of [init] after the callback registration: the rules are
    loaded and [set_configuration] runs.  The three records [init] itself
    logs around these two calls are not kept. *)
Definition init (file : option Ini.ConfigParser) (vram0 : Z)
    (ratio language : string) (w : World) : result World :=
  '(cs, ml) ← Configuration.load_configurations file;
  set_configuration (Build vram0 ratio language cs ml) w.

End ProfileAssistant.

(** ** base/gpu.py *)

Module GPU.

(** [GPU.calculate_screen_ratio], from the width and the height that
    [get_screen_resolution] reads from the system. *)
Definition calculate_screen_ratio (width height : Z) : result string :=
  let gcd := Z.gcd width height in
  if (gcd =? 0)%Z then Raise ZeroDivisionError
  else
    let x := (width / gcd)%Z in
    let y := (height / gcd)%Z in
    let '(x, y) := if (y =? 5)%Z then (x * 2, y * 2)%Z else (x, y) in
    Ok (PyStr.str x +:+ ":" +:+ PyStr.str y).

End GPU.

(** ** base/utils.py *)

Module Utils.

(** [get_os_language], from the first component of
    [locale.getdefaultlocale()]. *)
Definition get_os_language (system_language : option string) : string :=
  match system_language with
  | Some s =>
      if PyStr.is_empty s then ""
      else match PyStr.split "_" s with
           | language_only :: _ => language_only
           | [] => ""
           end
  | None => ""
  end.

End Utils.

(** ** Vocabulary of the statements *)

(** The sign the rewrite gives to an entry [name] whose sign was [sign]. *)
Definition new_sign (enabled disabled : list string) (sign : ascii)
    (name : string) : ascii :=
  if decide (name ∈ enabled) then "+"%char
  else if decide (name ∈ disabled) then "-"%char
  else sign.

(** [Rewritten enabled disabled lines out]: [out] lists, in the order of
    [lines], one line for every input line that is at least two characters
    long once stripped, and that line is the new sign, the stripped name and
    a line feed. *)
Inductive Rewritten (enabled disabled : list string)
  : list string → list string → Prop :=
| Rewritten_nil : Rewritten enabled disabled [] []
| Rewritten_drop line lines out :
    String.length (PyStr.strip line) < 2 →
    Rewritten enabled disabled lines out →
    Rewritten enabled disabled (line :: lines) out
| Rewritten_keep line sign rest lines out :
    PyStr.strip line = String sign rest →
    2 ≤ String.length (PyStr.strip line) →
    Rewritten enabled disabled lines out →
    Rewritten enabled disabled (line :: lines)
      (String (new_sign enabled disabled sign (PyStr.strip rest))
         (PyStr.strip rest +:+ Profile.nl) :: out).

(** The shape of an emitted line: it comes from an input line that was
    kept, whose stripped form is [sign] and [rest], and it is the new sign,
    the stripped [rest] and a line feed. *)
Definition Emitted (enabled disabled lines : list string) (out : string)
    : Prop :=
  ∃ line sign rest,
    line ∈ lines
    ∧ PyStr.strip line = String sign rest
    ∧ 2 ≤ String.length (PyStr.strip line)
    ∧ out = String (new_sign enabled disabled sign (PyStr.strip rest))
              (PyStr.strip rest +:+ Profile.nl).

(** The mod names a list of group names stands for: the lists of the groups
    that the mapping has, one after the other. *)
Definition resolve (mod_lists : gmap string (list string))
    (names : list string) : list string :=
  mjoin ((λ m, default [] (mod_lists !! m)) <$> names).

(** The group names a configuration refers to. *)
Definition referenced (c : Configuration.t) : list string :=
  Configuration.enable_mods c ++ Configuration.disable_mods c.

(** What the loader keeps true while it reads the rule sections: every
    referenced group is a key, and no group has been filled yet. *)
Definition groups_registered
    (st : list Configuration.t * gmap string (list string)) : Prop :=
  (∀ c m, c ∈ st.1 → m ∈ referenced c → is_Some (st.2 !! m))
  ∧ (∀ k v, st.2 !! k = Some v → v = []).

(** The records of the two "has not existing mod list" branches of [do]. *)
Definition is_missing_list_error (r : log_record) : bool :=
  match r with
  | ErrorNoEnableList _ _ | ErrorNoDisableList _ _ => true
  | _ => false
  end.

(** A small rule file: one rule, [Low], that enables the groups
    [LowGroup], which has a section, and [Ghost], which has none. *)
Definition sample_config : Ini.ConfigParser :=
  Ini.mkConfig
    {[ "General" := {[ "settings" := "Low,Absent" ]};
       "Low" := {[ "minvram" := "0"; "maxvram" := "6";
                   "enablemods" := "LowGroup,Ghost" ]};
       "LowGroup" := {[ "mod" := "modA" +:+ Profile.nl +:+ "modB" ]} ]}
    ∅.

Definition sample_rule : Configuration.t :=
  Configuration.Build "Low" None ["LowGroup"; "Ghost"] []
    (Some 0%Z) (Some 6%Z) None None.

Definition sample_groups : gmap string (list string) :=
  {[ "LowGroup" := ["modA"; "modB"]; "Ghost" := [] ]}.

Definition sample_world : World :=
  mkWorld (Some "@ByteArray(Default)") ["Default"; "Potato"]
    {[ "Default" := "-modA" +:+ Profile.nl +:+ "*other" +:+ Profile.nl
                    +:+ "-modB" +:+ Profile.nl;
       "Potato" := "+modA" +:+ Profile.nl ]}
    [].



(** The profile [c] switches to: the one it names, when it is one of
    [profiles]. *)
Definition switch_target (profiles : list string) (c : Configuration.t)
    : option string :=
  match Configuration.profile c with
  | Some p => if decide (p ∈ profiles) then Some p else None
  | None => None
  end.


(** The names in the "activated" records of a log, oldest first. *)
Definition activated (records : list log_record) : list string :=
  omap (λ r, match r with InfoActivated n _ _ => Some n | _ => None end)
    records.



(** Two worlds that differ in their logs at most. *)
Definition same_state (w1 w2 : World) : Prop :=
  selected_profile w1 = selected_profile w2
  ∧ profile_dirs w1 = profile_dirs w2
  ∧ modlists w1 = modlists w2.

(** The file [do] rewrites: the mod list of the profile that is selected
    once the switch is done. *)
Definition rewritten_file (self : Configuration.t) (profiles : list string)
    (w : World) : string :=
  match switch_target profiles self with
  | Some p => Profile.current_profile (Profile.change_profile p w)
  | None => Profile.current_profile w
  end.

(** A group name as the loader keeps it: not blank, and without a comma. *)
Definition group_name_ok (m : string) : Prop :=
  PyStr.strip m ≠ "" ∧ Forall (λ c, c ≠ ","%char) (list_ascii_of_string m).

(** What holds of every rule the loader builds from the rule file
    [config]: it is named after a section, its group names are kept ones,
    its profile and language are not the empty string, and its aspect
    ratio is in lowest terms with no zero component. *)
Definition well_formed_rule (config : Ini.ConfigParser)
    (c : Configuration.t) : Prop :=
  Ini.has_section config (Configuration.name c) = true
  ∧ Forall group_name_ok (Configuration.enable_mods c)
  ∧ Forall group_name_ok (Configuration.disable_mods c)
  ∧ Configuration.profile c ≠ Some ""
  ∧ Configuration.system_language c ≠ Some ""
  ∧ match Configuration.aspect_ratio c with
    | Some r =>
        Z.gcd (AspectRatio.x r) (AspectRatio.y r) = 1%Z
        ∧ AspectRatio.x r ≠ 0%Z ∧ AspectRatio.y r ≠ 0%Z
    | None => True
    end.

(** No line feed inside. *)
Fixpoint no_nl (s : string) : bool :=
  match s with
  | EmptyString => true
  | String c r => negb (bool_decide (c = "010"%char)) && no_nl r
  end.

(** * Properties *)

Example int_examples :
  PyStr.int " 16 " = Some 16%Z ∧ PyStr.int "-1_0" = Some (-10)%Z
  ∧ PyStr.int "1__0" = None ∧ PyStr.int "+ 5" = None ∧ PyStr.int "" = None
  ∧ PyStr.int "007" = Some 7%Z.
Proof. repeat split; reflexivity. Qed.

Example split_examples :
  PyStr.split "," "" = [""] ∧ PyStr.split "," ",a," = [""; "a"; ""]
  ∧ PyStr.split ":" "16:9" = ["16"; "9"].
Proof. repeat split; reflexivity. Qed.

Example replace_examples :
  PyStr.replace ")" "" (PyStr.replace "@ByteArray(" "" "@ByteArray(Low)") = "Low"
  ∧ PyStr.replace "aa" "b" "aaa" = "ba".
Proof. repeat split; reflexivity. Qed.


(** ** Strings *)

Lemma app_String (c : ascii) (s t : string) :
  String c s +:+ t = String c (s +:+ t).
Proof. reflexivity. Qed.

Lemma app_empty_l (t : string) : "" +:+ t = t.
Proof. reflexivity. Qed.

Lemma app_empty_r (s : string) : s +:+ "" = s.
Proof. induction s as [|c s IH]; [done|]. by rewrite app_String, IH. Qed.

Lemma app_is_empty (s t : string) :
  PyStr.is_empty (s +:+ t) = PyStr.is_empty s && PyStr.is_empty t.
Proof. by destruct s. Qed.

Lemma is_empty_true (s : string) : PyStr.is_empty s = true ↔ s = "".
Proof. by destruct s. Qed.

Section StripFacts.
Variable blank : ascii → bool.

Local Abbreviation lstrip := (PyStr.lstrip_with blank).
Local Abbreviation rstrip := (PyStr.rstrip_with blank).

Lemma lstrip_idem (s : string) : lstrip (lstrip s) = lstrip s.
Proof.
  induction s as [|c s IH]; [done|].
  simpl. destruct (blank c) eqn:Hc; [done|]. simpl. by rewrite Hc.
Qed.

Lemma rstrip_idem (s : string) : rstrip (rstrip s) = rstrip s.
Proof.
  induction s as [|c s IH]; [done|].
  simpl. destruct (blank c && PyStr.is_empty (rstrip s)) eqn:Hc; [done|].
  simpl. by rewrite IH, Hc.
Qed.

(** A trailing blank does not survive [rstrip]. *)
Lemma rstrip_app_blank (s : string) (c : ascii) :
  blank c = true → rstrip (s +:+ String c "") = rstrip s.
Proof.
  intros Hc. induction s as [|d s IH].
  - simpl. by rewrite Hc.
  - rewrite app_String. simpl. by rewrite IH.
Qed.

Lemma lstrip_empty_rstrip (s : string) : lstrip s = "" → rstrip s = "".
Proof.
  induction s as [|c s IH]; [done|].
  simpl. destruct (blank c); [|done]. intros H. by rewrite (IH H).
Qed.

(** What is left of a right-stripped string after [lstrip] is still
    right-stripped. *)
Lemma rstrip_lstrip_fixed (s : string) :
  rstrip s = s → rstrip (lstrip s) = lstrip s.
Proof.
  induction s as [|c s IH]; [done|].
  intros H. simpl in H.
  destruct (blank c && PyStr.is_empty (rstrip s)) eqn:Hc; [done|].
  injection H as H.
  simpl. destruct (blank c) eqn:Hb; [by apply IH|].
  simpl. by rewrite H, Hb.
Qed.

Lemma strip_lstrip_fixed (s : string) :
  lstrip (PyStr.strip_with blank s) = PyStr.strip_with blank s.
Proof. apply lstrip_idem. Qed.

Lemma strip_rstrip_fixed (s : string) :
  rstrip (PyStr.strip_with blank s) = PyStr.strip_with blank s.
Proof. apply rstrip_lstrip_fixed, rstrip_idem. Qed.

Lemma strip_idem (s : string) :
  PyStr.strip_with blank (PyStr.strip_with blank s)
  = PyStr.strip_with blank s.
Proof.
  unfold PyStr.strip_with at 1.
  by rewrite strip_rstrip_fixed, strip_lstrip_fixed.
Qed.

Lemma strip_app_blank (s : string) (c : ascii) :
  blank c = true →
  PyStr.strip_with blank (s +:+ String c "") = PyStr.strip_with blank s.
Proof. intros Hc. unfold PyStr.strip_with. by rewrite rstrip_app_blank. Qed.

(** The shape of a stripped string with a first character: the first
    character is not blank, and the rest is right-stripped. *)
Lemma stripped_String (c : ascii) (r : string) :
  lstrip (String c r) = String c r → rstrip (String c r) = String c r →
  blank c = false ∧ rstrip r = r.
Proof.
  intros Hl Hr. simpl in Hl, Hr.
  destruct (blank c) eqn:Hb.
  - exfalso. assert (String.length (lstrip r) ≤ String.length r) as Hlen.
    { clear. induction r as [|d r IH]; simpl; [lia|].
      destruct (blank d); simpl; lia. }
    rewrite Hl in Hlen. simpl in Hlen. lia.
  - split; [done|]. simpl in Hr. by injection Hr.
Qed.

(** A non-empty right-stripped string does not strip to the empty one. *)
Lemma strip_nonempty (r : string) :
  r ≠ "" → rstrip r = r → PyStr.strip_with blank r ≠ "".
Proof.
  intros Hne Hr Hs. unfold PyStr.strip_with in Hs. rewrite Hr in Hs.
  apply lstrip_empty_rstrip in Hs. congruence.
Qed.

(** Stripping a line made of a non-blank sign, a stripped non-empty name
    and a blank terminator gives the sign and the name back. *)
Lemma strip_sign_name (sign nlc : ascii) (name : string) :
  blank sign = false → blank nlc = true → name ≠ "" → rstrip name = name →
  PyStr.strip_with blank (String sign (name +:+ String nlc ""))
  = String sign name.
Proof.
  intros Hs Hn Hne Hr.
  rewrite <- app_String, strip_app_blank by done.
  unfold PyStr.strip_with. simpl. rewrite Hr.
  destruct name; [done|]. simpl. rewrite andb_false_r. simpl. by rewrite Hs.
Qed.
End StripFacts.

(** ** The mod-list rewrite *)

Lemma nl_is_space : PyStr.is_space "010" = true.
Proof. reflexivity. Qed.

(** What one input line contributes to the output. *)
Lemma modify_line_cases (enabled disabled acc : list string) (line : string) :
  (String.length (PyStr.strip line) < 2
   ∧ Profile.modify_line enabled disabled acc line = acc)
  ∨ (∃ sign rest,
       PyStr.strip line = String sign rest
       ∧ 2 ≤ String.length (PyStr.strip line)
       ∧ Profile.modify_line enabled disabled acc line
         = acc ++ [String (new_sign enabled disabled sign (PyStr.strip rest))
                     (PyStr.strip rest +:+ Profile.nl)]).
Proof.
  unfold Profile.modify_line.
  destruct (String.length (PyStr.strip line) <? 2) eqn:Hlen.
  - left. apply Nat.ltb_lt in Hlen. done.
  - right. apply Nat.ltb_ge in Hlen.
    destruct (PyStr.strip line) as [|sign rest] eqn:Hs; [simpl in Hlen; lia|].
    exists sign, rest. split; [done|]. split; [done|].
    unfold new_sign. repeat case_decide; reflexivity.
Qed.

Lemma modify_line_acc (enabled disabled acc : list string) (line : string) :
  Profile.modify_line enabled disabled acc line
  = acc ++ Profile.modify_line enabled disabled [] line.
Proof.
  unfold Profile.modify_line.
  destruct (String.length (PyStr.strip line) <? 2); [by rewrite app_nil_r|].
  destruct (PyStr.strip line); [by rewrite app_nil_r|].
  repeat case_decide; reflexivity.
Qed.

(** The accumulator of the loop only grows at its end. *)
Lemma modify_lines_acc (enabled disabled lines acc : list string) :
  fold_left (Profile.modify_line enabled disabled) lines acc
  = acc ++ Profile.modify_lines enabled disabled lines.
Proof.
  unfold Profile.modify_lines.
  revert acc. induction lines as [|line lines IH]; intros acc.
  - simpl. by rewrite app_nil_r.
  - simpl. rewrite (IH (Profile.modify_line _ _ [] line)), IH.
    by rewrite (modify_line_acc _ _ acc), app_assoc.
Qed.

Lemma modify_lines_cons (enabled disabled lines : list string) (line : string) :
  Profile.modify_lines enabled disabled (line :: lines)
  = Profile.modify_line enabled disabled [] line
    ++ Profile.modify_lines enabled disabled lines.
Proof. unfold Profile.modify_lines at 1. simpl. apply modify_lines_acc. Qed.

Lemma modify_lines_app (enabled disabled l1 l2 : list string) :
  Profile.modify_lines enabled disabled (l1 ++ l2)
  = Profile.modify_lines enabled disabled l1
    ++ Profile.modify_lines enabled disabled l2.
Proof.
  induction l1 as [|line l1 IH]; [done|].
  rewrite <- app_comm_cons, !modify_lines_cons, IH. by rewrite app_assoc.
Qed.

Lemma modify_lines_Rewritten (enabled disabled lines : list string) :
  Rewritten enabled disabled lines (Profile.modify_lines enabled disabled lines).
Proof.
  induction lines as [|line lines IH]; [constructor|].
  rewrite modify_lines_cons.
  destruct (modify_line_cases enabled disabled [] line)
    as [[Hlt ->]|(sign & rest & Hs & Hge & ->)]; simpl.
  - by apply Rewritten_drop.
  - by apply Rewritten_keep.
Qed.

(** C2. [Profile.modify_modlist_file] emits its lines in the order of the
    input lines, and every kept line gets the sign ['+'] when its name is
    in the enabled list, else ['-'] when it is in the disabled list, else
    the sign it had ([Rewritten]); the lines [+foo], [-bar], [+baz] with
    [bar] enabled and nothing disabled become [+foo], [+bar], [+baz], each
    with its line feed. *)
Theorem modify_modlist_order_and_signs :
  (∀ enabled disabled lines,
     Rewritten enabled disabled lines
       (Profile.modify_lines enabled disabled lines))
  ∧ Profile.modify_lines ["bar"] [] ["+foo"; "-bar"; "+baz"]
    = ["+foo" +:+ Profile.nl; "+bar" +:+ Profile.nl; "+baz" +:+ Profile.nl]
  ∧ Profile.modify_lines ["bar"] []
      ["+foo" +:+ Profile.nl; "-bar" +:+ Profile.nl; "+baz" +:+ Profile.nl]
    = ["+foo" +:+ Profile.nl; "+bar" +:+ Profile.nl; "+baz" +:+ Profile.nl].
Proof.
  split; [apply modify_lines_Rewritten|]. split; vm_compute; reflexivity.
Qed.

Lemma modify_lines_Emitted (enabled disabled lines : list string) :
  Forall (Emitted enabled disabled lines)
    (Profile.modify_lines enabled disabled lines).
Proof.
  induction lines as [|line lines IH]; [constructor|].
  rewrite modify_lines_cons. apply Forall_app. split.
  - destruct (modify_line_cases enabled disabled [] line)
      as [[Hlt ->]|(sign & rest & Hs & Hge & ->)]; [constructor|].
    apply Forall_singleton. exists line, sign, rest.
    split; [apply list_elem_of_here|done].
  - eapply Forall_impl; [exact IH|].
    intros out (l & sign & rest & Hin & Hs & Hge & ->).
    exists l, sign, rest. split; [by apply list_elem_of_further|done].
Qed.

(** The sign and the name of a kept line: the sign is not a blank, the
    name is not empty and is its own stripped form. *)
Lemma kept_line_parts (line : string) (sign : ascii) (rest : string) :
  PyStr.strip line = String sign rest →
  2 ≤ String.length (PyStr.strip line) →
  PyStr.is_space sign = false
  ∧ PyStr.strip rest ≠ ""
  ∧ PyStr.strip (PyStr.strip rest) = PyStr.strip rest
  ∧ PyStr.rstrip_with PyStr.is_space (PyStr.strip rest) = PyStr.strip rest.
Proof.
  intros Hs Hge.
  pose proof (strip_rstrip_fixed PyStr.is_space line) as Hr.
  pose proof (strip_lstrip_fixed PyStr.is_space line) as Hl.
  fold PyStr.strip in Hr, Hl. rewrite Hs in Hr, Hl, Hge.
  destruct (stripped_String _ _ _ Hl Hr) as [Hsign Hrr].
  split; [done|]. split; [|split].
  - apply strip_nonempty; [|done]. intros ->. simpl in Hge. lia.
  - apply strip_idem.
  - apply strip_rstrip_fixed.
Qed.

(** How the next pass reads an emitted line. *)
Lemma Emitted_stripped (enabled disabled lines : list string) (out : string) :
  Emitted enabled disabled lines out →
  ∃ sign name,
    out = String sign (name +:+ Profile.nl)
    ∧ PyStr.strip out = String sign name
    ∧ name ≠ "" ∧ PyStr.strip name = name
    ∧ new_sign enabled disabled sign name = sign.
Proof.
  intros (line & sign & rest & _ & Hs & Hge & ->).
  destruct (kept_line_parts _ _ _ Hs Hge) as (Hsign & Hname & Hfix & Hrfix).
  set (name := PyStr.strip rest) in *.
  assert (PyStr.is_space (new_sign enabled disabled sign name) = false)
    as Hnew.
  { unfold new_sign. repeat case_decide; done. }
  exists (new_sign enabled disabled sign name), name.
  split; [done|]. split; [|split; [done|split; [done|]]].
  - by apply strip_sign_name.
  - unfold new_sign. repeat case_decide; done.
Qed.

(** The rewrite leaves a line it has emitted as it is. *)
Lemma modify_line_Emitted (enabled disabled lines : list string) (out : string) :
  Emitted enabled disabled lines out →
  Profile.modify_line enabled disabled [] out = [out].
Proof.
  intros (sign & name & -> & Hs & Hne & Hfix & Hsg)%Emitted_stripped.
  destruct (modify_line_cases enabled disabled [] (String sign (name +:+ Profile.nl)))
    as [[Hlt _]|(sign' & rest' & Hs' & _ & ->)].
  - rewrite Hs in Hlt. destruct name; [done|simpl in Hlt; lia].
  - rewrite Hs in Hs'. injection Hs' as <- <-.
    by rewrite Hfix, Hsg.
Qed.

Lemma modify_lines_fixed (enabled disabled lines outs : list string) :
  Forall (Emitted enabled disabled lines) outs →
  Profile.modify_lines enabled disabled outs = outs.
Proof.
  induction 1 as [|out outs Hout _ IH]; [done|].
  by rewrite modify_lines_cons, (modify_line_Emitted _ _ _ _ Hout), IH.
Qed.

(** On lists of lines, a second pass changes nothing. *)
Lemma modify_lines_idempotent (enabled disabled lines : list string) :
  Profile.modify_lines enabled disabled
    (Profile.modify_lines enabled disabled lines)
  = Profile.modify_lines enabled disabled lines.
Proof. eapply modify_lines_fixed, modify_lines_Emitted. Qed.

(** C10. Every line [Profile.modify_modlist_file] emits is one sign
    character, then the name with no blank before or after it, then a line
    feed; blanks around the input line and between its sign and its name
    are gone, also for an entry that is neither enabled nor disabled, which
    keeps its sign. *)
Theorem modify_modlist_lines_normalized :
  (∀ enabled disabled lines,
     Forall
       (λ out, ∃ line sign rest,
          line ∈ lines
          ∧ PyStr.strip line = String sign rest
          ∧ out = String (new_sign enabled disabled sign (PyStr.strip rest))
                    (PyStr.strip rest +:+ Profile.nl)
          ∧ PyStr.strip rest ≠ ""
          ∧ PyStr.strip (PyStr.strip rest) = PyStr.strip rest
          ∧ PyStr.is_space sign = false
          ∧ (PyStr.strip rest ∉ enabled → PyStr.strip rest ∉ disabled →
             out = String sign (PyStr.strip rest +:+ Profile.nl)))
       (Profile.modify_lines enabled disabled lines))
  ∧ Profile.modify_lines ["other"] ["more"]
      ["   *    my mod   " +:+ Profile.nl; "-" +:+ String "009" "tabbed"]
    = ["*my mod" +:+ Profile.nl; "-tabbed" +:+ Profile.nl].
Proof.
  split; [|vm_compute; reflexivity].
  intros enabled disabled lines.
  eapply Forall_impl; [apply modify_lines_Emitted|].
  intros out (line & sign & rest & Hin & Hs & Hge & ->).
  destruct (kept_line_parts _ _ _ Hs Hge) as (Hsign & Hname & Hfix & _).
  exists line, sign, rest. repeat (split; [done|]).
  intros He Hd. unfold new_sign. by rewrite !decide_False.
Qed.

(** ** Reading the file back *)

Section NoNl.
Local Abbreviation lstrip := (PyStr.lstrip_with PyStr.is_space).
Local Abbreviation rstrip := (PyStr.rstrip_with PyStr.is_space).

Lemma no_nl_app (s t : string) : no_nl (s +:+ t) = no_nl s && no_nl t.
Proof.
  induction s as [|c s IH]; [done|].
  rewrite app_String. simpl. by rewrite IH, andb_assoc.
Qed.

Lemma no_nl_lstrip (s : string) : no_nl s = true → no_nl (lstrip s) = true.
Proof.
  induction s as [|c s IH]; [done|].
  simpl. intros [Hc Hs]%andb_true_iff.
  destruct (PyStr.is_space c); [by apply IH|]. simpl. by rewrite Hc, Hs.
Qed.

Lemma no_nl_rstrip (s : string) : no_nl s = true → no_nl (rstrip s) = true.
Proof.
  induction s as [|c s IH]; [done|].
  simpl. intros [Hc Hs]%andb_true_iff.
  destruct (PyStr.is_space c && PyStr.is_empty (rstrip s)); [done|].
  simpl. by rewrite Hc, IH.
Qed.

Lemma no_nl_strip (s : string) : no_nl s = true → no_nl (PyStr.strip s) = true.
Proof. intros H. by apply no_nl_lstrip, no_nl_rstrip. Qed.

(** A line of [readlines] has no line feed but its last character. *)
Lemma readlines_lines (text : string) :
  Forall (λ line, ∃ body, no_nl body = true
                          ∧ (line = body ∨ line = body +:+ Profile.nl))
    (Profile.readlines text).
Proof.
  induction text as [|c text IH]; [constructor|].
  simpl. case_decide as Hc.
  - constructor; [|done]. exists "". split; [done|by right].
  - destruct (Profile.readlines text) as [|l ls].
    + apply Forall_singleton. exists (String c ""). split; [|by left].
      simpl. by rewrite bool_decide_eq_false_2.
    + apply Forall_cons in IH as [(body & Hb & Hl) IH].
      constructor; [|done]. exists (String c body). split.
      * simpl. by rewrite bool_decide_eq_false_2.
      * destruct Hl as [->| ->]; [by left|by right].
Qed.

Lemma readlines_strip_no_nl (text line : string) :
  line ∈ Profile.readlines text → no_nl (PyStr.strip line) = true.
Proof.
  intros Hin.
  pose proof (readlines_lines text) as H.
  rewrite Forall_forall in H. destruct (H line Hin) as (body & Hb & [->| ->]).
  - by apply no_nl_strip.
  - unfold PyStr.strip, Profile.nl.
    rewrite strip_app_blank by done. by apply no_nl_strip.
Qed.

(** Written lines that end in their only line feed are read back as they
    were written. *)
Lemma readlines_line (body rest : string) :
  no_nl body = true →
  Profile.readlines ((body +:+ Profile.nl) +:+ rest)
  = (body +:+ Profile.nl) :: Profile.readlines rest.
Proof.
  induction body as [|c body IH]; intros Hb.
  - unfold Profile.nl. rewrite app_empty_l, app_String, app_empty_l.
    reflexivity.
  - simpl in Hb. apply andb_true_iff in Hb as [Hc Hb].
    apply negb_true_iff, bool_decide_eq_false in Hc.
    rewrite !app_String. simpl. rewrite decide_False by done.
    by rewrite (IH Hb).
Qed.

Lemma readlines_writelines (lines : list string) :
  Forall (λ line, ∃ body, no_nl body = true ∧ line = body +:+ Profile.nl)
    lines →
  Profile.readlines (Profile.writelines lines) = lines.
Proof.
  induction 1 as [|line lines (body & Hb & ->) _ IH]; [done|].
  simpl. by rewrite readlines_line, IH.
Qed.

Lemma modify_lines_readable (enabled disabled : list string) (text : string) :
  Forall (λ line, ∃ body, no_nl body = true ∧ line = body +:+ Profile.nl)
    (Profile.modify_lines enabled disabled (Profile.readlines text)).
Proof.
  eapply Forall_impl; [apply modify_lines_Emitted|].
  intros out (line & sign & rest & Hin & Hs & _ & ->).
  apply readlines_strip_no_nl in Hin. rewrite Hs in Hin.
  simpl in Hin. apply andb_true_iff in Hin as [_ Hrest].
  exists (String (new_sign enabled disabled sign (PyStr.strip rest))
            (PyStr.strip rest)).
  split; [|done]. simpl. rewrite (no_nl_strip _ Hrest), andb_true_r.
  unfold new_sign. repeat case_decide; try done.
  apply negb_true_iff, bool_decide_eq_false. intros ->.
  assert (PyStr.is_space "010" = false) as Habs; [|done].
  clear -Hs.
  pose proof (strip_lstrip_fixed PyStr.is_space line) as Hl.
  fold PyStr.strip in Hl. rewrite Hs in Hl. simpl in Hl.
  destruct (PyStr.is_space "010") eqn:E; [|done].
  exfalso. assert (String.length (lstrip rest) ≤ String.length rest) as Hlen.
  { clear. induction rest as [|d r IH]; simpl; [lia|].
    destruct (PyStr.is_space d); simpl; lia. }
  rewrite Hl in Hlen. simpl in Hlen. lia.
Qed.
End NoNl.

(** The text of the file after the rewrite, from the text before it. *)
Lemma modify_text_idempotent (enabled disabled : list string) (text : string) :
  let rewrite_text t :=
    Profile.writelines
      (Profile.modify_lines enabled disabled (Profile.readlines t)) in
  rewrite_text (rewrite_text text) = rewrite_text text.
Proof.
  intros rewrite_text. unfold rewrite_text.
  rewrite readlines_writelines by apply modify_lines_readable.
  by rewrite modify_lines_idempotent.
Qed.

(** C6. [Profile.modify_modlist_file] is idempotent: a second rewrite of
    the same file with the same enabled and disabled names returns the
    world of the first one, the text of the file included. *)
Theorem modify_modlist_file_idempotent
    (filename : string) (enabled disabled : list string) (w w1 : World) :
  Profile.modify_modlist_file filename enabled disabled w = Ok w1 →
  Profile.modify_modlist_file filename enabled disabled w1 = Ok w1.
Proof.
  unfold Profile.modify_modlist_file.
  destruct (modlists w !! filename) as [text|] eqn:Hf; [|done].
  intros [= <-]. simpl. rewrite lookup_insert_eq.
  rewrite modify_text_idempotent. by rewrite insert_insert_eq.
Qed.

Lemma modify_modlist_file_idempotent_witness :
  let w := mkWorld None [] {[ "" := " -a " +:+ Profile.nl +:+ "+ b" ]} [] in
  let w1 := mkWorld None [] {[ "" := "+a" +:+ Profile.nl +:+ "+b" +:+ Profile.nl ]} [] in
  Profile.modify_modlist_file "" ["a"] ["c"] w = Ok w1
  ∧ Profile.modify_modlist_file "" ["a"] ["c"] w1 = Ok w1.
Proof.
  assert (Profile.modify_modlist_file "" ["a"] ["c"]
            (mkWorld None [] {[ "" := " -a " +:+ Profile.nl +:+ "+ b" ]} [])
          = Ok (mkWorld None []
                  {[ "" := "+a" +:+ Profile.nl +:+ "+b" +:+ Profile.nl ]} []))
    as H by (vm_compute; reflexivity).
  split; [exact H|].
  exact (modify_modlist_file_idempotent "" ["a"] ["c"] _ _ H).
Defined.

(** ** Aspect ratios *)

(** C5. [AspectRatio(x, y)] raises [ValueError] exactly when [x] or [y] is
    zero; otherwise the stored pair is the input pair divided by its
    greatest common divisor, and the greatest common divisor of the stored
    pair is one. *)
Theorem AspectRatio_init_reduced (x y : Z) :
  match AspectRatio.init x y with
  | Raise e => e = ValueError ∧ (x = 0 ∨ y = 0)%Z
  | Ok r =>
      x ≠ 0%Z ∧ y ≠ 0%Z
      ∧ AspectRatio.x r = (x / Z.gcd x y)%Z
      ∧ AspectRatio.y r = (y / Z.gcd x y)%Z
      ∧ Z.gcd (AspectRatio.x r) (AspectRatio.y r) = 1%Z
  end.
Proof.
  unfold AspectRatio.init.
  destruct (x =? 0)%Z eqn:Hx; [apply Z.eqb_eq in Hx; simpl; auto|].
  destruct (y =? 0)%Z eqn:Hy; [apply Z.eqb_eq in Hy; simpl; auto|].
  apply Z.eqb_neq in Hx, Hy. simpl. repeat (split; [done|]).
  apply Z.gcd_div_gcd; [|done].
  intros Hg. apply Z.gcd_eq_0_l in Hg. done.
Qed.

(** What [from_string] does with a string, by the outcome of the parse. *)
Lemma from_string_outcomes (s : string) :
  match AspectRatio.parse_pair s with
  | None => AspectRatio.from_string (Some s) = Ok None
  | Some (a, b) =>
      if ((a =? 0) || (b =? 0))%Z
      then AspectRatio.from_string (Some s) = Raise ValueError
      else AspectRatio.from_string (Some s)
           = Ok (Some (AspectRatio.Build (a / Z.gcd a b) (b / Z.gcd a b)))
  end.
Proof.
  unfold AspectRatio.from_string.
  destruct (AspectRatio.parse_pair s) as [[a b]|]; [|done].
  unfold AspectRatio.init. by destruct ((a =? 0) || (b =? 0))%Z.
Qed.

(** [None] is returned exactly for the strings that do not split on the
    colon into two parts that [int] accepts. *)
Lemma from_string_None_iff (s : string) :
  AspectRatio.from_string (Some s) = Ok None
  ↔ ¬ ∃ x_str y_str,
        PyStr.split ":" s = [x_str; y_str]
        ∧ is_Some (PyStr.int x_str) ∧ is_Some (PyStr.int y_str).
Proof.
  pose proof (from_string_outcomes s) as H.
  unfold AspectRatio.parse_pair in H.
  split.
  - intros Hn (x_str & y_str & Hsp & [a Ha] & [b Hb]).
    rewrite Hsp, Ha, Hb in H.
    destruct ((a =? 0) || (b =? 0))%Z; congruence.
  - intros Hn.
    destruct (PyStr.split ":" s) as [|x_str [|y_str [|]]]; try done.
    destruct (PyStr.int x_str) as [a|] eqn:Ha; [|done].
    destruct (PyStr.int y_str) as [b|] eqn:Hb; [|done].
    exfalso. apply Hn. by exists x_str, y_str.
Qed.

(** C4, at the input that breaks it. ["0:1"] splits into two parts that
    [int] accepts, and [from_string] neither returns an object nor [None]:
    the [ValueError] of the constructor, which is called after the [try]
    block, reaches the caller. *)
Theorem from_string_zero_component_raises :
  AspectRatio.parse_pair "0:1" = Some (0, 1)%Z
  ∧ AspectRatio.from_string (Some "0:1") = Raise ValueError
  ∧ AspectRatio.from_string (Some "16:0") = Raise ValueError.
Proof. repeat split; reflexivity. Qed.

(** ** Matching *)

(** C1. [Configuration.check_vram] holds exactly when [min_vram] is absent
    or at most [vram], and [max_vram] is absent or greater than [vram]; with
    the bounds 8 and 12 it accepts 8 and 11 and rejects 7 and 12. *)
Theorem check_vram_half_open :
  (∀ (self : Configuration.t) (vram : Z),
     Configuration.check_vram self vram = true
     ↔ (Configuration.min_vram self = None
        ∨ ∃ mn, Configuration.min_vram self = Some mn ∧ (vram >= mn)%Z)
       ∧ (Configuration.max_vram self = None
          ∨ ∃ mx, Configuration.max_vram self = Some mx ∧ (vram < mx)%Z))
  ∧ (∀ name profile enable disable ratio language,
       let c := Configuration.Build name profile enable disable
                  (Some 8%Z) (Some 12%Z) ratio language in
       Configuration.check_vram c 8 = true
       ∧ Configuration.check_vram c 11 = true
       ∧ Configuration.check_vram c 7 = false
       ∧ Configuration.check_vram c 12 = false).
Proof.
  split; [|done].
  intros self vram. unfold Configuration.check_vram.
  destruct (Configuration.min_vram self) as [mn|],
    (Configuration.max_vram self) as [mx|];
    rewrite ?andb_true_iff, ?Z.gtb_lt, ?Z.geb_le, ?Z.leb_le.
  - split.
    + intros [? ?]. split; right; eexists; (split; [done|lia]).
    + intros [[?|(? & [= <-] & ?)] [?|(? & [= <-] & ?)]]; try done. lia.
  - split.
    + intros ?. split; [|by left]. right. eexists. split; [done|lia].
    + intros [[?|(? & [= <-] & ?)] _]; [done|lia].
  - split.
    + intros ?. split; [by left|]. right. eexists. split; [done|lia].
    + intros [_ [?|(? & [= <-] & ?)]]; [done|lia].
  - split; [|done]. intros _. split; by left.
Qed.

(** ** Applying a configuration *)

Lemma collect_acc (mod_lists : gmap string (list string))
    (missing : string → log_record) (names acc : list string) (w : World) :
  (fold_left (Configuration.collect_step mod_lists missing) names (acc, w)).1
  = acc ++ resolve mod_lists names.
Proof.
  revert acc w. induction names as [|m names IH]; intros acc w.
  - simpl. by rewrite app_nil_r.
  - simpl. unfold Configuration.collect_step at 2. unfold resolve. simpl.
    destruct (mod_lists !! m) as [mods|]; simpl.
    + rewrite IH. by rewrite app_assoc.
    + by rewrite IH.
Qed.

Lemma collect_resolve (mod_lists : gmap string (list string))
    (missing : string → log_record) (names : list string) (w : World) :
  (Configuration.collect mod_lists missing names w).1
  = resolve mod_lists names.
Proof. unfold Configuration.collect. by rewrite collect_acc. Qed.

(** The loops over group names only add log records. *)
Lemma collect_step_world (mod_lists : gmap string (list string))
    (missing : string → log_record) (names : list string)
    (st : list string * World) :
  let st' := fold_left (Configuration.collect_step mod_lists missing) names st in
  selected_profile st'.2 = selected_profile st.2
  ∧ profile_dirs st'.2 = profile_dirs st.2
  ∧ modlists st'.2 = modlists st.2.
Proof.
  revert st. induction names as [|m names IH]; intros st; [done|].
  simpl in *.
  destruct (IH (Configuration.collect_step mod_lists missing st m))
    as (-> & -> & ->).
  unfold Configuration.collect_step. by destruct (mod_lists !! m).
Qed.

Lemma collect_world (mod_lists : gmap string (list string))
    (missing : string → log_record) (names : list string) (w : World) :
  let w' := (Configuration.collect mod_lists missing names w).2 in
  selected_profile w' = selected_profile w
  ∧ profile_dirs w' = profile_dirs w
  ∧ modlists w' = modlists w.
Proof. apply (collect_step_world mod_lists missing names ([], w)). Qed.

Lemma switch_profile_world (self : Configuration.t) (profiles : list string)
    (w : World) :
  let w' := (Configuration.switch_profile self profiles w).2 in
  profile_dirs w' = profile_dirs w ∧ modlists w' = modlists w.
Proof.
  unfold Configuration.switch_profile.
  destruct (Configuration.profile self) as [p|]; [|done].
  by case_decide.
Qed.

Lemma list_set_elem (l : list string) (m : string) :
  m ∈ Configuration.list_set l ↔ m ∈ l.
Proof.
  unfold Configuration.list_set.
  by rewrite elem_of_elements, elem_of_list_to_set.
Qed.

Lemma final_lists_spec (raw_enabled raw_disabled : list string) :
  let '(enabled, filtered) := Configuration.final_lists raw_enabled raw_disabled in
  (∀ m, m ∈ enabled ↔ m ∈ raw_enabled)
  ∧ (∀ m, m ∈ filtered ↔ m ∈ raw_disabled ∧ m ∉ raw_enabled)
  ∧ NoDup enabled ∧ NoDup filtered.
Proof.
  unfold Configuration.final_lists. split; [|split; [|split]].
  - apply list_set_elem.
  - intros m. rewrite list_elem_of_filter, !list_set_elem. tauto.
  - unfold Configuration.list_set. apply NoDup_elements.
  - unfold Configuration.list_set. apply NoDup_filter, NoDup_elements.
Qed.

(** [do], one step after the other. *)
Lemma do_steps (self : Configuration.t) (profiles : list string)
    (mod_lists : gmap string (list string)) (w : World) :
  let name := Configuration.name self in
  let sw := Configuration.switch_profile self profiles w in
  let en := Configuration.collect mod_lists (ErrorNoEnableList name)
              (Configuration.enable_mods self) sw.2 in
  let dis := Configuration.collect mod_lists (ErrorNoDisableList name)
               (Configuration.disable_mods self) en.2 in
  let fl := Configuration.final_lists en.1 dis.1 in
  let w3 := log_add (InfoActivated name sw.1
                       (Some (length fl.1, length fl.2)))
              (log_add (DebugMods fl.1 fl.2) dis.2) in
  Configuration.do self profiles mod_lists w
  = if PyStr.is_nil en.1 && PyStr.is_nil dis.1
    then Ok (log_add (InfoActivated name sw.1 None)
               (log_add (DebugNoMods name) dis.2))
    else Profile.modify_modlist_file (Profile.get_modlist_file w3)
           fl.1 fl.2 w3.
Proof.
  cbv zeta. unfold Configuration.do.
  destruct (Configuration.switch_profile self profiles w) as [switched w1].
  cbn [fst snd].
  destruct (Configuration.collect mod_lists _ (Configuration.enable_mods self) w1)
    as [enabled w2].
  cbn [fst snd].
  destruct (Configuration.collect mod_lists _ (Configuration.disable_mods self) w2)
    as [disabled w3].
  cbn [fst snd]. by destruct (Configuration.final_lists enabled disabled).
Qed.

(** C3. In [Configuration.do] the names handed to the rewrite as disabled
    are the resolved disable names that are not among the resolved enable
    names, so a name in both collections is enabled: with ["A"] in both
    [enable_mods] and [disable_mods] and the group ["A"] holding [modX], the
    rewrite is called with [modX] enabled and nothing disabled. *)
Theorem do_enable_wins :
  (∀ (self : Configuration.t) profiles mod_lists (w : World),
     let raw_enabled := resolve mod_lists (Configuration.enable_mods self) in
     let raw_disabled := resolve mod_lists (Configuration.disable_mods self) in
     let enabled := (Configuration.final_lists raw_enabled raw_disabled).1 in
     let filtered := (Configuration.final_lists raw_enabled raw_disabled).2 in
     (∀ m, m ∈ enabled ↔ m ∈ raw_enabled)
     ∧ (∀ m, m ∈ filtered ↔ m ∈ raw_disabled ∧ m ∉ enabled)
     ∧ ((PyStr.is_nil raw_enabled && PyStr.is_nil raw_disabled = true
         ∧ ∃ w', Configuration.do self profiles mod_lists w = Ok w'
                 ∧ modlists w' = modlists w)
        ∨ (PyStr.is_nil raw_enabled && PyStr.is_nil raw_disabled = false
           ∧ ∃ w', modlists w' = modlists w
                   ∧ Configuration.do self profiles mod_lists w
                     = Profile.modify_modlist_file
                         (Profile.get_modlist_file w') enabled filtered w')))
  ∧ (∀ name min_vram max_vram ratio language (w : World),
       Configuration.do
         (Configuration.Build name None ["A"] ["A"]
            min_vram max_vram ratio language)
         (Profile.get_profiles w) {[ "A" := ["modX"] ]} w
       = Profile.modify_modlist_file (Profile.get_modlist_file w)
           ["modX"] []
           (log_add (InfoActivated name None (Some (1, 0)))
              (log_add (DebugMods ["modX"] []) w))).
Proof.
  split.
  - intros self profiles mod_lists w raw_enabled raw_disabled enabled filtered.
    pose proof (final_lists_spec raw_enabled raw_disabled) as Hfl.
    fold enabled filtered in Hfl.
    destruct (Configuration.final_lists raw_enabled raw_disabled)
      as [en fd] eqn:Hfinal.
    simpl in enabled, filtered. subst enabled filtered.
    destruct Hfl as (Hen & Hfd & _ & _).
    split; [done|]. split.
    { intros m. rewrite Hfd, Hen. done. }
    rewrite do_steps. cbv zeta.
    rewrite !collect_resolve.
    fold raw_enabled raw_disabled. rewrite Hfinal. cbn [fst snd].
    set (sw := Configuration.switch_profile self profiles w).
    set (c1 := Configuration.collect mod_lists _ _ sw.2).
    set (c2 := Configuration.collect mod_lists _ _ c1.2).
    assert (modlists c2.2 = modlists w) as Hfiles.
    { subst c2 c1 sw.
      destruct (collect_world mod_lists
        (ErrorNoDisableList (Configuration.name self))
        (Configuration.disable_mods self)
        (Configuration.collect mod_lists
           (ErrorNoEnableList (Configuration.name self))
           (Configuration.enable_mods self)
           (Configuration.switch_profile self profiles w).2).2)
        as (_ & _ & ->).
      destruct (collect_world mod_lists
        (ErrorNoEnableList (Configuration.name self))
        (Configuration.enable_mods self)
        (Configuration.switch_profile self profiles w).2)
        as (_ & _ & ->).
      apply switch_profile_world. }
    destruct (PyStr.is_nil raw_enabled && PyStr.is_nil raw_disabled).
    + left. split; [done|]. eexists. split; [done|]. done.
    + right. split; [done|]. eexists. split; [|reflexivity]. done.
  - intros name min_vram max_vram ratio language w.
    assert (∀ missing w0,
              Configuration.collect {[ "A" := ["modX"] ]} missing ["A"] w0
              = (["modX"], w0)) as Hcollect.
    { intros missing w0. unfold Configuration.collect. simpl.
      unfold Configuration.collect_step. by rewrite lookup_singleton_eq. }
    assert (Configuration.final_lists ["modX"] ["modX"] = (["modX"], []))
      as Hfinal by (vm_compute; reflexivity).
    rewrite do_steps. cbv zeta.
    unfold Configuration.switch_profile. cbn [Configuration.profile snd fst].
    cbn [Configuration.enable_mods Configuration.disable_mods
         Configuration.name].
    rewrite !Hcollect. cbn [fst snd]. rewrite Hfinal. reflexivity.
Qed.

Example do_enable_wins_on_file :
  let w := mkWorld (Some "@ByteArray(Default)") ["Default"]
             {[ "Default" := "-modX" +:+ Profile.nl +:+ "+other" +:+ Profile.nl ]}
             [] in
  ∃ w', Configuration.do
          (Configuration.Build "Rule" None ["A"] ["A"] None None None None)
          ["Default"] {[ "A" := ["modX"] ]} w = Ok w'
        ∧ modlists w' !! "Default"
          = Some ("+modX" +:+ Profile.nl +:+ "+other" +:+ Profile.nl).
Proof. eexists. split; vm_compute; reflexivity. Qed.

(** ** Loading the rule file *)

Lemma register_groups_keeps (names : list string)
    (mod_lists : gmap string (list string)) (k : string) (v : list string) :
  mod_lists !! k = Some v →
  Configuration.register_groups names mod_lists !! k = Some v.
Proof.
  unfold Configuration.register_groups.
  revert mod_lists. induction names as [|m names IH]; intros ml Hk; [done|].
  simpl. apply IH.
  destruct (ml !! m) eqn:Hm; [done|].
  rewrite lookup_insert_ne; [done|]. intros ->. congruence.
Qed.

Lemma register_groups_adds (names : list string)
    (mod_lists : gmap string (list string)) (m : string) :
  m ∈ names → is_Some (Configuration.register_groups names mod_lists !! m).
Proof.
  unfold Configuration.register_groups.
  revert mod_lists. induction names as [|n names IH]; intros ml Hin.
  - by apply elem_of_nil in Hin.
  - apply elem_of_cons in Hin as [->|Hin]; [|by apply IH].
    simpl. destruct (ml !! n) as [v|] eqn:Hn.
    + exists v. by apply (register_groups_keeps names).
    + exists []. apply (register_groups_keeps names), lookup_insert_eq.
Qed.

Lemma register_groups_empty_values (names : list string)
    (mod_lists : gmap string (list string)) :
  (∀ k v, mod_lists !! k = Some v → v = []) →
  ∀ k v, Configuration.register_groups names mod_lists !! k = Some v → v = [].
Proof.
  unfold Configuration.register_groups.
  revert mod_lists. induction names as [|n names IH]; intros ml Hml; [done|].
  simpl. apply IH. destruct (ml !! n) eqn:Hn; [done|].
  intros k v. rewrite lookup_insert. case_decide; [congruence|apply Hml].
Qed.

Lemma load_section_registered (config : Ini.ConfigParser)
    (st st' : list Configuration.t * gmap string (list string))
    (section : string) :
  groups_registered st →
  Configuration.load_section config st section = Ok st' →
  groups_registered st'.
Proof.
  intros [Hkeys Hvals]. unfold Configuration.load_section.
  destruct st as [settings mod_lists].
  destruct (Ini.has_section config section); [|by intros [= <-]].
  destruct (AspectRatio.from_string _) as [ratio|e]; [|done].
  simpl. intros [= <-]. split; simpl.
  - intros c m [Hc|Hc]%elem_of_app Hm.
    + destruct (Hkeys c m Hc Hm) as [v Hv].
      exists v. by do 2 apply register_groups_keeps.
    + apply list_elem_of_singleton in Hc as ->.
      unfold referenced in Hm. simpl in Hm.
      apply elem_of_app in Hm as [Hm|Hm].
      * destruct (register_groups_adds _ mod_lists m Hm) as [v Hv].
        exists v. by apply register_groups_keeps.
      * by apply register_groups_adds.
  - by do 2 apply register_groups_empty_values.
Qed.

Lemma load_sections_registered (config : Ini.ConfigParser)
    (names : list string)
    (st st' : list Configuration.t * gmap string (list string)) :
  groups_registered st →
  Configuration.load_sections config names st = Ok st' →
  groups_registered st'.
Proof.
  revert st. induction names as [|section names IH]; intros st Hst.
  - by intros [= <-].
  - simpl.
    destruct (Configuration.load_section config st section) as [st1|e] eqn:H1;
      [|done].
    simpl. apply IH. by eapply load_section_registered.
Qed.

Lemma fill_groups_lookup (config : Ini.ConfigParser)
    (mod_lists : gmap string (list string)) (k : string) :
  Configuration.fill_groups config mod_lists !! k
  = (λ mods, if Ini.has_section config k
             then Ini.getlist config k "Mod" else mods) <$> mod_lists !! k.
Proof.
  unfold Configuration.fill_groups. rewrite map_lookup_imap.
  by destruct (mod_lists !! k).
Qed.

(** The loader's result: every referenced group is a key of the mapping,
    and a key without a section of its name holds the empty list. *)
Lemma load_configurations_groups (file : option Ini.ConfigParser)
    (settings : list Configuration.t) (mod_lists : gmap string (list string)) :
  Configuration.load_configurations file = Ok (settings, mod_lists) →
  (∀ c m, c ∈ settings → m ∈ referenced c → is_Some (mod_lists !! m))
  ∧ (∀ config k, file = Some config → is_Some (mod_lists !! k) →
       Ini.has_section config k = false → mod_lists !! k = Some []).
Proof.
  unfold Configuration.load_configurations.
  destruct file as [config|].
  - destruct (Configuration.load_sections config _ ([], ∅))
      as [[settings0 ml0]|e] eqn:Hload; [|done].
    simpl. intros [= <- <-].
    apply load_sections_registered in Hload as [Hkeys Hvals].
    + cbn [fst snd] in Hkeys, Hvals. split.
      * intros c m Hc Hm. rewrite fill_groups_lookup.
        destruct (Hkeys c m Hc Hm) as [v ->]. by eexists.
      * intros config' k [= <-] [v Hv] Hsec.
        rewrite fill_groups_lookup in Hv |- *. rewrite Hsec in Hv |- *.
        destruct (ml0 !! k) as [v0|] eqn:Hk; [|done].
        by rewrite (Hvals k v0 Hk).
    + split; [|done]. intros c m Hc. by apply elem_of_nil in Hc.
  - intros [= <- <-]. split; [|done].
    intros c m Hc. by apply elem_of_nil in Hc.
Qed.

(** C8. After [load_configurations], every group name in the [EnableMods]
    or [DisableMods] list of a loaded rule is a key of the returned
    mapping; when the rule file has no section of that name, the key holds
    the empty list. *)
Theorem load_configurations_registers_groups
    (file : option Ini.ConfigParser) (settings : list Configuration.t)
    (mod_lists : gmap string (list string)) :
  Configuration.load_configurations file = Ok (settings, mod_lists) →
  ∀ c m, c ∈ settings →
    m ∈ Configuration.enable_mods c ∨ m ∈ Configuration.disable_mods c →
    is_Some (mod_lists !! m)
    ∧ (∀ config, file = Some config → Ini.has_section config m = false →
         mod_lists !! m = Some []).
Proof.
  intros [Hkeys Hempty]%load_configurations_groups c m Hc Hm.
  assert (m ∈ referenced c) as Href by (by apply elem_of_app).
  split; [by eapply Hkeys|].
  intros config Hfile Hsec. eapply Hempty; [done| |done]. by eapply Hkeys.
Qed.

Lemma load_configurations_registers_groups_witness :
  is_Some (sample_groups !! "Ghost")
  ∧ (∀ config, Some sample_config = Some config →
       Ini.has_section config "Ghost" = false →
       sample_groups !! "Ghost" = Some []).
Proof.
  refine (load_configurations_registers_groups
            (Some sample_config) [sample_rule] sample_groups _
            sample_rule "Ghost" _ _).
  - vm_compute. reflexivity.
  - apply list_elem_of_here.
  - left. simpl. apply list_elem_of_further, list_elem_of_here.
Defined.

(** When every name is a key, the loop over group names logs nothing. *)
Lemma collect_all_keys (mod_lists : gmap string (list string))
    (missing : string → log_record) (names : list string) (w : World) :
  (∀ m, m ∈ names → is_Some (mod_lists !! m)) →
  Configuration.collect mod_lists missing names w
  = (resolve mod_lists names, w).
Proof.
  unfold Configuration.collect. change (resolve mod_lists names)
    with ([] ++ resolve mod_lists names).
  generalize (@nil string) as acc.
  induction names as [|m names IH]; intros acc Hkeys.
  - simpl. by rewrite app_nil_r.
  - simpl. unfold Configuration.collect_step at 2.
    destruct (Hkeys m (list_elem_of_here _ _)) as [mods Hm].
    rewrite Hm. simpl. rewrite IH.
    + unfold resolve. simpl. by rewrite Hm, app_assoc.
    + intros m' Hm'. apply Hkeys. by apply list_elem_of_further.
Qed.

Lemma switch_profile_log (self : Configuration.t) (profiles : list string)
    (w : World) :
  ∃ added, log (Configuration.switch_profile self profiles w).2
           = log w ++ added
           ∧ Forall (λ r, is_missing_list_error r = false) added.
Proof.
  unfold Configuration.switch_profile.
  destruct (Configuration.profile self) as [p|].
  - case_decide.
    + exists []. by rewrite app_nil_r.
    + eexists [_]. split; [done|]. by apply Forall_singleton.
  - exists []. by rewrite app_nil_r.
Qed.

Lemma modify_modlist_file_log (filename : string)
    (enabled disabled : list string) (w w' : World) :
  Profile.modify_modlist_file filename enabled disabled w = Ok w' →
  log w' = log w ∧ selected_profile w' = selected_profile w
  ∧ profile_dirs w' = profile_dirs w.
Proof.
  unfold Profile.modify_modlist_file.
  destruct (modlists w !! filename); [|done]. by intros [= <-].
Qed.

(** C9. For the pair [load_configurations] returns, every name in a
    configuration's [enable_mods] and [disable_mods] is a key of the
    mapping; so in [do] with that mapping the two loops over group names
    return the world they were given, and a [do] that returns has logged no
    "has not existing mod list" record. *)
Theorem loaded_groups_never_missing
    (file : option Ini.ConfigParser) (settings : list Configuration.t)
    (mod_lists : gmap string (list string)) :
  Configuration.load_configurations file = Ok (settings, mod_lists) →
  ∀ c, c ∈ settings →
    (∀ m, m ∈ Configuration.enable_mods c → m ∈ dom mod_lists)
    ∧ (∀ m, m ∈ Configuration.disable_mods c → m ∈ dom mod_lists)
    ∧ (∀ w, Configuration.collect mod_lists
              (ErrorNoEnableList (Configuration.name c))
              (Configuration.enable_mods c) w
            = (resolve mod_lists (Configuration.enable_mods c), w))
    ∧ (∀ w, Configuration.collect mod_lists
              (ErrorNoDisableList (Configuration.name c))
              (Configuration.disable_mods c) w
            = (resolve mod_lists (Configuration.disable_mods c), w))
    ∧ (∀ profiles w w',
         Configuration.do c profiles mod_lists w = Ok w' →
         ∃ added, log w' = log w ++ added
                  ∧ Forall (λ r, is_missing_list_error r = false) added).
Proof.
  intros [Hkeys _]%load_configurations_groups c Hc.
  assert (∀ m, m ∈ Configuration.enable_mods c → is_Some (mod_lists !! m))
    as Hen.
  { intros m Hm. apply (Hkeys c m Hc). apply elem_of_app. by left. }
  assert (∀ m, m ∈ Configuration.disable_mods c → is_Some (mod_lists !! m))
    as Hdis.
  { intros m Hm. apply (Hkeys c m Hc). apply elem_of_app. by right. }
  split; [intros m Hm; by apply elem_of_dom, Hen|].
  split; [intros m Hm; by apply elem_of_dom, Hdis|].
  split; [intros w; by apply collect_all_keys|].
  split; [intros w; by apply collect_all_keys|].
  intros profiles w w'. rewrite do_steps. cbv zeta.
  rewrite !collect_all_keys by done. cbn [fst snd].
  destruct (switch_profile_log c profiles w) as (added & Hlog & Hadded).
  destruct (PyStr.is_nil _ && PyStr.is_nil _).
  - intros [= <-]. simpl. rewrite Hlog.
    eexists (added ++ [_; _]). rewrite <- !app_assoc. split; [done|].
    apply Forall_app. split; [done|]. by repeat constructor.
  - intros (-> & _ & _)%modify_modlist_file_log. simpl. rewrite Hlog.
    eexists (added ++ [_; _]). rewrite <- !app_assoc. split; [done|].
    apply Forall_app. split; [done|]. by repeat constructor.
Qed.

Lemma loaded_groups_never_missing_witness :
  ∃ w', Configuration.do sample_rule ["Default"; "Potato"] sample_groups
          sample_world = Ok w'
        ∧ ∃ added, log w' = log sample_world ++ added
                   ∧ Forall (λ r, is_missing_list_error r = false) added.
Proof.
  destruct (Configuration.do sample_rule ["Default"; "Potato"] sample_groups
              sample_world) as [w'|e] eqn:Hdo; [|by vm_compute in Hdo].
  exists w'. split; [done|].
  refine (proj2 (proj2 (proj2 (proj2
    (loaded_groups_never_missing (Some sample_config) [sample_rule]
       sample_groups _ sample_rule _)))) _ _ _ Hdo).
  - vm_compute. reflexivity.
  - apply list_elem_of_here.
Defined.

(** ** Applying every matching configuration *)






Lemma current_profile_ext (w1 w2 : World) :
  selected_profile w1 = selected_profile w2 →
  Profile.current_profile w1 = Profile.current_profile w2.
Proof. unfold Profile.current_profile. by intros ->. Qed.

(** The world [do] hands to the rewrite: the files are those of [w], and
    the selected profile is the one the switch left. *)
Lemma do_steps_world (self : Configuration.t) (profiles : list string)
    (mod_lists : gmap string (list string)) (w : World) :
  let name := Configuration.name self in
  let sw := Configuration.switch_profile self profiles w in
  let en := Configuration.collect mod_lists (ErrorNoEnableList name)
              (Configuration.enable_mods self) sw.2 in
  let dis := Configuration.collect mod_lists (ErrorNoDisableList name)
               (Configuration.disable_mods self) en.2 in
  modlists dis.2 = modlists w
  ∧ selected_profile dis.2 = selected_profile sw.2.
Proof.
  cbv zeta.
  set (sw := Configuration.switch_profile self profiles w).
  destruct (switch_profile_world self profiles w) as (_ & Hf0).
  fold sw in Hf0.
  destruct (collect_world mod_lists
              (ErrorNoEnableList (Configuration.name self))
              (Configuration.enable_mods self) sw.2) as (Hs1 & _ & Hf1).
  set (en := Configuration.collect mod_lists _ _ sw.2) in *.
  destruct (collect_world mod_lists
              (ErrorNoDisableList (Configuration.name self))
              (Configuration.disable_mods self) en.2) as (Hs2 & _ & Hf2).
  split; congruence.
Qed.

Lemma rewritten_file_spec (self : Configuration.t) (profiles : list string)
    (w : World) :
  Profile.current_profile (Configuration.switch_profile self profiles w).2
  = rewritten_file self profiles w.
Proof.
  unfold rewritten_file, Configuration.switch_profile, switch_target.
  destruct (Configuration.profile self) as [p|]; [|done].
  by case_decide.
Qed.

(** [do] ends in a return or in the rewrite of [rewritten_file], on a
    world that has the files of [w]. *)
Lemma do_as_rewrite (self : Configuration.t) (profiles : list string)
    (mod_lists : gmap string (list string)) (w : World) :
  let raw_enabled := resolve mod_lists (Configuration.enable_mods self) in
  let raw_disabled := resolve mod_lists (Configuration.disable_mods self) in
  let fl := Configuration.final_lists raw_enabled raw_disabled in
  ∃ w1 w3,
    modlists w1 = modlists w ∧ modlists w3 = modlists w
    ∧ Configuration.do self profiles mod_lists w
      = if PyStr.is_nil raw_enabled && PyStr.is_nil raw_disabled
        then Ok w1
        else Profile.modify_modlist_file (rewritten_file self profiles w)
               fl.1 fl.2 w3.
Proof.
  cbv zeta. rewrite do_steps. cbv zeta. rewrite !collect_resolve.
  destruct (do_steps_world self profiles mod_lists w) as (Hfiles & Hsel).
  unfold Profile.get_modlist_file.
  rewrite (current_profile_ext _
             (Configuration.switch_profile self profiles w).2)
    by (cbn [selected_profile log_add]; exact Hsel).
  rewrite rewritten_file_spec.
  eexists _, _. split; [|split; [|reflexivity]].
  - cbn [modlists log_add]. exact Hfiles.
  - cbn [modlists log_add]. exact Hfiles.
Qed.








(** The loaded rules are the names under [General/Settings] that have a
    section, in the order of that list. *)
Lemma load_sections_names (config : Ini.ConfigParser) (names : list string)
    (st st' : list Configuration.t * gmap string (list string)) :
  Configuration.load_sections config names st = Ok st' →
  Configuration.name <$> st'.1
  = (Configuration.name <$> st.1)
    ++ List.filter (Ini.has_section config) names.
Proof.
  revert st. induction names as [|section names IH]; intros st.
  - intros [= <-]. simpl. by rewrite app_nil_r.
  - simpl.
    destruct (Configuration.load_section config st section) as [st1|e] eqn:H1;
      [|done].
    simpl. intros ->%IH.
    unfold Configuration.load_section in H1. destruct st as [settings ml].
    destruct (Ini.has_section config section).
    + destruct (AspectRatio.from_string _); [|done].
      simpl in H1. injection H1 as <-. simpl.
      by rewrite fmap_app, <- app_assoc.
    + injection H1 as <-. done.
Qed.



(** X17. The loaded rules are, in this order, the names listed under
    [General/Settings] that have a section of their own; a listed name
    without a section is skipped. *)
Lemma load_configurations_order (config : Ini.ConfigParser)
    (settings : list Configuration.t) (mod_lists : gmap string (list string)) :
  Configuration.load_configurations (Some config) = Ok (settings, mod_lists) →
  Configuration.name <$> settings
  = List.filter (Ini.has_section config)
      (PyStr.split "," (Ini.get config "General" "Settings" "")).
Proof.
  unfold Configuration.load_configurations.
  destruct (Configuration.load_sections config _ ([], ∅))
    as [[settings0 ml0]|e] eqn:Hload; [|done].
  simpl. intros [= <- <-]. by apply load_sections_names in Hload.
Qed.

(** The rule file [sample_config] on a machine with 4 GB: the rule [Low]
    matches, and the two mods of [LowGroup] are enabled in the mod list of
    the selected profile; the other entry keeps its sign. *)
Example init_low_vram :
  ∃ w', ProfileAssistant.init (Some sample_config) 4 "16:9" "en" sample_world
        = Ok w'
        ∧ modlists w' !! "Default"
          = Some ("+modA" +:+ Profile.nl +:+ "*other" +:+ Profile.nl
                  +:+ "+modB" +:+ Profile.nl)
        ∧ modlists w' !! "Potato" = modlists sample_world !! "Potato"
        ∧ activated (log w') = ["Low"].
Proof. eexists. repeat split; vm_compute; reflexivity. Qed.

(** ** Printing and reading integers *)

(** No character of [s] is a blank for [blank]. *)
Lemma strip_with_no_blank (blank : ascii → bool) (s : string) :
  (∀ c r, s = String c r → blank c = false) →
  PyStr.rstrip_with blank s = s →
  PyStr.strip_with blank s = s.
Proof.
  intros Hhd Hr. unfold PyStr.strip_with. rewrite Hr.
  destruct s as [|c r]; [done|]. simpl. by rewrite (Hhd c r).
Qed.

Lemma rstrip_with_all (blank : ascii → bool) (s : string) :
  Forall (λ c, blank c = false) (list_ascii_of_string s) →
  PyStr.rstrip_with blank s = s.
Proof.
  induction s as [|c s IH]; [done|].
  simpl. intros [Hc Hs]%Forall_cons. by rewrite Hc, (IH Hs).
Qed.

Lemma strip_with_all (blank : ascii → bool) (s : string) :
  Forall (λ c, blank c = false) (list_ascii_of_string s) →
  PyStr.strip_with blank s = s.
Proof.
  intros Hall. apply strip_with_no_blank; [|by apply rstrip_with_all].
  intros c r ->. simpl in Hall. by apply Forall_cons in Hall as [? _].
Qed.

Lemma string_of_uint_no_blank (d : Decimal.uint) :
  Forall (λ c, PyStr.is_int_space c = false)
    (list_ascii_of_string (NilEmpty.string_of_uint d)).
Proof. induction d; simpl; by constructor. Qed.

Lemma int_digits_digit (c : ascii) (v acc : Z) (r : string) :
  PyStr.digit_val c = Some v →
  PyStr.int_digits acc (String c r) = PyStr.int_digits (10 * acc + v) r.
Proof. intros H. simpl. by rewrite H. Qed.

(** Reading the digits of [d] after the digits that made [acc]. *)
Lemma int_digits_string_of_uint (d : Decimal.uint) (acc : Z) :
  PyStr.int_digits acc (NilEmpty.string_of_uint d)
  = Some (acc * Z.of_N (10 ^ DecimalPos.Unsigned.usize d)
          + Z.of_N (DecimalPos.Unsigned.of_lu (Decimal.rev d)))%Z.
Proof.
  revert acc. induction d; intros acc; [simpl; f_equal; lia|..].
  all: match goal with
       | |- context [Decimal.rev (?f ?d0)] =>
           change (Decimal.rev (f d0))
             with (Decimal.revapp d0 (f Decimal.Nil));
           rewrite (DecimalPos.Unsigned.of_lu_revapp d0 (f Decimal.Nil))
       end.
  all: simpl NilEmpty.string_of_uint; simpl DecimalPos.Unsigned.usize;
    simpl DecimalPos.Unsigned.of_lu; rewrite N.pow_succ_r'.
  all: erewrite int_digits_digit by reflexivity; rewrite IHd; f_equal.
  all: rewrite ?N2Z.inj_add, ?N2Z.inj_mul.
  all: generalize (Z.of_N (10 ^ DecimalPos.Unsigned.usize d))
         (Z.of_N (DecimalPos.Unsigned.of_lu (Decimal.rev d))); intros P R.
  all: repeat match goal with
         | |- context [Z.of_N ?n] =>
             let v := eval vm_compute in (Z.of_N n) in
             change (Z.of_N n) with v
         end.
  all: ring.
Qed.

Lemma int_literal_string_of_uint (d : Decimal.uint) :
  d ≠ Decimal.Nil →
  PyStr.int_literal (NilEmpty.string_of_uint d)
  = Some (Z.of_N (Pos.of_uint d)).
Proof.
  intros Hd. rewrite DecimalPos.Unsigned.of_uint_alt.
  pose proof (int_digits_string_of_uint d 0) as H.
  rewrite Z.mul_0_l, Z.add_0_l in H. rewrite <- H.
  destruct d; [done|..]; reflexivity.
Qed.

(** [int] reads back what [str] prints. *)
Lemma int_str (n : Z) : PyStr.int (PyStr.str n) = Some n.
Proof.
  unfold PyStr.int, PyStr.str.
  destruct n as [|p|p]; [reflexivity|..]; simpl Z.to_int;
    pose proof (DecimalPos.Unsigned.to_uint_nonnil p) as Hnil;
    pose proof (int_literal_string_of_uint _ Hnil) as Hlit;
    rewrite DecimalPos.Unsigned.of_to in Hlit;
    pose proof (string_of_uint_no_blank (Pos.to_uint p)) as Hall.
  - simpl NilZero.string_of_int. unfold NilZero.string_of_uint.
    destruct (Pos.to_uint p) eqn:Hu; [done|..];
      rewrite strip_with_all by done; exact Hlit.
  - simpl NilZero.string_of_int. unfold NilZero.string_of_uint.
    assert (NilEmpty.string_of_uint (Pos.to_uint p)
            = match Pos.to_uint p with
              | Decimal.Nil => "0"
              | _ => NilEmpty.string_of_uint (Pos.to_uint p)
              end) as <- by (by destruct (Pos.to_uint p)).
    rewrite strip_with_all by (simpl; by constructor).
    by rewrite Hlit.
Qed.

(** The characters [str] prints: digits, and the minus sign. *)
Lemma str_chars (n : Z) :
  Forall (λ c, is_Some (PyStr.digit_val c) ∨ c = "-"%char)
    (list_ascii_of_string (PyStr.str n)).
Proof.
  assert (∀ d, Forall (λ c, is_Some (PyStr.digit_val c) ∨ c = "-"%char)
                 (list_ascii_of_string (NilEmpty.string_of_uint d))) as Hd.
  { induction d; simpl; constructor; try done; left; by eexists. }
  unfold PyStr.str, NilZero.string_of_int, NilZero.string_of_uint.
  destruct (Z.to_int n) as [d|d].
  - destruct d; try apply Hd. simpl. constructor; [left; by eexists|done].
  - simpl. constructor; [by right|].
    destruct d; try apply Hd. simpl. constructor; [left; by eexists|done].
Qed.

Lemma split_no_sep (sep : ascii) (s : string) :
  Forall (λ c, c ≠ sep) (list_ascii_of_string s) →
  PyStr.split sep s = [s].
Proof.
  induction s as [|c s IH]; [done|].
  simpl. intros [Hc Hs]%Forall_cons.
  rewrite decide_False by done. by rewrite (IH Hs).
Qed.

Lemma split_app_sep (sep : ascii) (a b : string) :
  Forall (λ c, c ≠ sep) (list_ascii_of_string a) →
  PyStr.split sep (a +:+ String sep b) = a :: PyStr.split sep b.
Proof.
  induction a as [|c a IH].
  - intros _. rewrite app_empty_l. simpl. by rewrite decide_True.
  - intros [Hc Ha]%Forall_cons. rewrite app_String. simpl.
    rewrite decide_False by done. by rewrite (IH Ha).
Qed.

Lemma str_no_colon (n : Z) :
  Forall (λ c, c ≠ ":"%char) (list_ascii_of_string (PyStr.str n)).
Proof.
  eapply Forall_impl; [apply str_chars|].
  intros c [[v Hv]| ->]; [|done]. intros ->. done.
Qed.

(** The pair printed as ["x:y"] is the pair that is read. *)
Lemma parse_pair_printed (a b : Z) :
  AspectRatio.parse_pair (PyStr.str a +:+ ":" +:+ PyStr.str b) = Some (a, b).
Proof.
  unfold AspectRatio.parse_pair.
  change (":" +:+ PyStr.str b) with (String ":" (PyStr.str b)).
  rewrite split_app_sep by apply str_no_colon.
  rewrite split_no_sep by apply str_no_colon.
  by rewrite !int_str.
Qed.

(** ** More on aspect ratios *)

Lemma init_Ok (x y : Z) (r : AspectRatio.t) :
  AspectRatio.init x y = Ok r →
  x ≠ 0%Z ∧ y ≠ 0%Z ∧ (0 < Z.gcd x y)%Z
  ∧ x = (AspectRatio.x r * Z.gcd x y)%Z
  ∧ y = (AspectRatio.y r * Z.gcd x y)%Z
  ∧ Z.gcd (AspectRatio.x r) (AspectRatio.y r) = 1%Z
  ∧ AspectRatio.x r ≠ 0%Z ∧ AspectRatio.y r ≠ 0%Z.
Proof.
  unfold AspectRatio.init.
  destruct (x =? 0)%Z eqn:Hx; [done|].
  destruct (y =? 0)%Z eqn:Hy; [done|].
  apply Z.eqb_neq in Hx, Hy. simpl. intros [= <-]. simpl.
  assert (0 < Z.gcd x y)%Z as Hg.
  { pose proof (Z.gcd_nonneg x y).
    assert (Z.gcd x y ≠ 0%Z) by (intros H0; by apply Z.gcd_eq_0_l in H0).
    lia. }
  destruct (Z.gcd_divide_l x y) as [qx Hqx].
  destruct (Z.gcd_divide_r x y) as [qy Hqy].
  assert ((x / Z.gcd x y)%Z = qx) as Hdx
    by (rewrite Hqx at 1; apply Z.div_mul; lia).
  assert ((y / Z.gcd x y)%Z = qy) as Hdy
    by (rewrite Hqy at 1; apply Z.div_mul; lia).
  repeat split; try done.
  - by rewrite Hdx.
  - by rewrite Hdy.
  - apply Z.gcd_div_gcd; lia.
  - rewrite Hdx. intros ->. lia.
  - rewrite Hdy. intros ->. lia.
Qed.

(** X1. What [AspectRatio(x, y)] stores is exact and keeps the signs: the
    stored components times the greatest common divisor are [x] and [y],
    so a negative component stays negative. *)
Theorem AspectRatio_init_exact (x y : Z) (r : AspectRatio.t) :
  AspectRatio.init x y = Ok r →
  (AspectRatio.x r * Z.gcd x y = x)%Z
  ∧ (AspectRatio.y r * Z.gcd x y = y)%Z
  ∧ Z.sgn (AspectRatio.x r) = Z.sgn x
  ∧ Z.sgn (AspectRatio.y r) = Z.sgn y.
Proof.
  intros (Hx & Hy & Hg & Hxr & Hyr & _)%init_Ok.
  split; [done|]. split; [done|].
  pose proof (Z.sgn_pos (Z.gcd x y) Hg) as Hsg.
  pose proof (Z.sgn_mul (AspectRatio.x r) (Z.gcd x y)) as Hsx.
  pose proof (Z.sgn_mul (AspectRatio.y r) (Z.gcd x y)) as Hsy.
  rewrite <- Hxr in Hsx. rewrite <- Hyr in Hsy. lia.
Qed.

Lemma AspectRatio_init_exact_witness :
  let r := AspectRatio.Build (-8) 5 in
  (AspectRatio.x r * Z.gcd (-16) 10 = -16)%Z
  ∧ (AspectRatio.y r * Z.gcd (-16) 10 = 10)%Z
  ∧ Z.sgn (AspectRatio.x r) = Z.sgn (-16)
  ∧ Z.sgn (AspectRatio.y r) = Z.sgn 10.
Proof. apply (AspectRatio_init_exact (-16) 10). reflexivity. Defined.

(** X2. Building an aspect ratio again from the pair an object stores
    gives the same object. *)
Theorem AspectRatio_init_idempotent (x y : Z) (r : AspectRatio.t) :
  AspectRatio.init x y = Ok r →
  AspectRatio.init (AspectRatio.x r) (AspectRatio.y r) = Ok r.
Proof.
  intros (_ & _ & _ & _ & _ & Hg & Hx & Hy)%init_Ok.
  unfold AspectRatio.init.
  apply Z.eqb_neq in Hx, Hy. rewrite Hx, Hy, Hg, !Z.div_1_r. simpl.
  by destruct r.
Qed.

Lemma AspectRatio_init_idempotent_witness :
  AspectRatio.init 16 9 = Ok (AspectRatio.Build 16 9).
Proof.
  apply (AspectRatio_init_idempotent 1920 1080 (AspectRatio.Build 16 9)).
  reflexivity.
Defined.

(** Two reduced pairs with the same cross products and first components of
    the same sign are the same pair. *)
Lemma reduced_pair_unique (x y a b : Z) :
  Z.gcd x y = 1%Z → Z.gcd a b = 1%Z →
  (a * y = b * x)%Z → (0 < a * x)%Z →
  a = x ∧ b = y.
Proof.
  intros Hxy Hab Hcross Hsign.
  assert ((x | a))%Z as Hxa.
  { apply (Z.gauss x y a); [|done]. exists b. lia. }
  assert ((a | x))%Z as Hax.
  { apply (Z.gauss a b x); [|done]. exists y. lia. }
  destruct (Z.divide_antisym _ _ Hxa Hax) as [->| ->].
  - split; [done|].
    assert (a ≠ 0%Z) as Ha by (intros ->; lia).
    apply (Z.mul_reg_l _ _ a); [done|lia].
  - exfalso. pose proof (Z.square_nonneg a). lia.
Qed.

(** [is_equal] on a string that parses to a pair other than [(0, 0)]. *)
Lemma is_equal_cross (x y a b : Z) (r : AspectRatio.t) (s : string) :
  AspectRatio.init x y = Ok r →
  AspectRatio.parse_pair s = Some (a, b) →
  (a ≠ 0 ∨ b ≠ 0)%Z →
  AspectRatio.is_equal r s = Ok true ↔ (a * y = b * x)%Z ∧ (0 < a * x)%Z.
Proof.
  intros (Hx & Hy & Hg & Hxr & Hyr & Hred & Hxr0 & Hyr0)%init_Ok Hparse Hab.
  unfold AspectRatio.is_equal. rewrite Hparse.
  assert (0 < Z.gcd a b)%Z as Hh.
  { pose proof (Z.gcd_nonneg a b).
    assert (Z.gcd a b ≠ 0%Z); [|lia].
    intros H0. pose proof (Z.gcd_eq_0_l _ _ H0).
    pose proof (Z.gcd_eq_0_r _ _ H0). lia. }
  rewrite (proj2 (Z.eqb_neq _ _)) by lia.
  destruct (Z.gcd_divide_l a b) as [qa Hqa].
  destruct (Z.gcd_divide_r a b) as [qb Hqb].
  assert ((a / Z.gcd a b)%Z = qa) as Hda
    by (rewrite Hqa at 1; apply Z.div_mul; lia).
  assert ((b / Z.gcd a b)%Z = qb) as Hdb
    by (rewrite Hqb at 1; apply Z.div_mul; lia).
  assert (Z.gcd qa qb = 1%Z) as Hq.
  { rewrite <- Hda, <- Hdb. apply Z.gcd_div_gcd; lia. }
  rewrite Hda, Hdb.
  set (g := Z.gcd x y) in *. set (h := Z.gcd a b) in *.
  set (x' := AspectRatio.x r) in *. set (y' := AspectRatio.y r) in *.
  split.
  - intros [= [Ex Ey]%andb_true_iff].
    apply Z.eqb_eq in Ex, Ey. subst qa qb. split; [nia|].
    rewrite Hqa, Hxr. assert (0 < x' * x')%Z by nia. nia.
  - intros [Hcross Hsign].
    destruct (reduced_pair_unique x' y' qa qb Hred Hq) as [-> ->].
    + rewrite Hqa, Hqb, Hxr, Hyr in Hcross.
      assert (0 < h * g)%Z as Hhg by nia.
      apply (Z.mul_reg_l _ _ (h * g)%Z); [lia|]. lia.
    + rewrite Hqa, Hxr in Hsign.
      assert (0 < h * g)%Z as Hhg by nia.
      destruct (Z.lt_trichotomy (qa * x') 0) as [Hn|[Hz|Hp]]; [|nia|done].
      exfalso. nia.
    + by rewrite !Z.eqb_refl.
Qed.

(** X3. For an aspect ratio built from [(x, y)] and a string that reads as
    a pair [(a, b)] other than [(0, 0)], [is_equal] returns [True] exactly
    when [a * y = b * x] and [a] has the sign of [x]: scaled pairs are
    equal, pairs with both signs flipped are not. *)
Theorem is_equal_same_fraction
    (x y a b : Z) (r : AspectRatio.t) (s : string) :
  AspectRatio.init x y = Ok r →
  AspectRatio.parse_pair s = Some (a, b) →
  (a ≠ 0 ∨ b ≠ 0)%Z →
  (AspectRatio.is_equal r s = Ok true ↔ (a * y = b * x)%Z ∧ (0 < a * x)%Z)
  ∧ (AspectRatio.is_equal r s = Ok false
     ↔ ¬ ((a * y = b * x)%Z ∧ (0 < a * x)%Z)).
Proof.
  intros Hinit Hparse Hab.
  pose proof (is_equal_cross x y a b r s Hinit Hparse Hab) as Hiff.
  split; [done|].
  assert (∃ v, AspectRatio.is_equal r s = Ok v) as [v Hv].
  { unfold AspectRatio.is_equal. rewrite Hparse.
    destruct (Z.gcd a b =? 0)%Z eqn:H0; [|by eexists].
    apply Z.eqb_eq in H0. pose proof (Z.gcd_eq_0_l _ _ H0).
    pose proof (Z.gcd_eq_0_r _ _ H0). lia. }
  rewrite Hv in Hiff |- *. destruct v.
  - split; [done|]. intros Hn. exfalso. apply Hn. by apply Hiff.
  - split; [|done]. intros _ Hc. apply Hiff in Hc. done.
Qed.

Lemma is_equal_same_fraction_witness :
  (AspectRatio.is_equal (AspectRatio.Build 8 5) "-16:-10" = Ok true
   ↔ (-16 * 10 = -10 * 16)%Z ∧ (0 < -16 * 16)%Z)
  ∧ (AspectRatio.is_equal (AspectRatio.Build 8 5) "-16:-10" = Ok false
     ↔ ¬ ((-16 * 10 = -10 * 16)%Z ∧ (0 < -16 * 16)%Z)).
Proof.
  apply (is_equal_same_fraction 16 10 (-16) (-10) (AspectRatio.Build 8 5)
           "-16:-10").
  - reflexivity.
  - reflexivity.
  - left. lia.
Defined.

(** X4. [is_equal] raises [ValueError] exactly for a string that does not
    read as two integers around one colon, and [ZeroDivisionError] exactly
    for a string that reads as [(0, 0)]; for every other string it
    returns. *)
Theorem is_equal_errors (self : AspectRatio.t) (s : string) :
  (AspectRatio.is_equal self s = Raise ValueError
   ↔ AspectRatio.parse_pair s = None)
  ∧ (AspectRatio.is_equal self s = Raise ZeroDivisionError
     ↔ AspectRatio.parse_pair s = Some (0, 0)%Z)
  ∧ (AspectRatio.is_equal self s ≠ Raise FileNotFoundError).
Proof.
  unfold AspectRatio.is_equal.
  destruct (AspectRatio.parse_pair s) as [[a b]|]; [|by repeat split].
  destruct (Z.gcd a b =? 0)%Z eqn:H0.
  - apply Z.eqb_eq in H0. pose proof (Z.gcd_eq_0_l _ _ H0) as ->.
    pose proof (Z.gcd_eq_0_r _ _ H0) as ->. by repeat split.
  - apply Z.eqb_neq in H0. repeat split; try done.
    intros [= -> ->]. exfalso. by apply H0.
Qed.

(** X5. An aspect ratio read from a string is equal to that string. *)
Theorem from_string_is_equal (s : string) (r : AspectRatio.t) :
  AspectRatio.from_string (Some s) = Ok (Some r) →
  AspectRatio.is_equal r s = Ok true.
Proof.
  unfold AspectRatio.from_string.
  destruct (AspectRatio.parse_pair s) as [[a b]|] eqn:Hparse; [|done].
  destruct (AspectRatio.init a b) as [r'|e] eqn:Hinit; [|done].
  simpl. intros [= ->].
  pose proof (init_Ok _ _ _ Hinit) as (Ha & Hb & _).
  apply (is_equal_cross a b a b r s Hinit Hparse); [by left|].
  split; [lia|nia].
Qed.

Lemma from_string_is_equal_witness :
  AspectRatio.is_equal (AspectRatio.Build 8 5) " 16 :+1_0" = Ok true.
Proof. apply from_string_is_equal. reflexivity. Defined.

(** X6. Reading the text an aspect ratio prints gives the aspect ratio
    back. *)
Theorem to_string_from_string (x y : Z) (r : AspectRatio.t) :
  AspectRatio.init x y = Ok r →
  AspectRatio.from_string (Some (AspectRatio.to_string r)) = Ok (Some r).
Proof.
  intros Hinit. unfold AspectRatio.from_string, AspectRatio.to_string.
  rewrite parse_pair_printed.
  assert (AspectRatio.init (AspectRatio.x r) (AspectRatio.y r) = Ok r) as ->;
    [|done].
  apply init_Ok in Hinit as (_ & _ & _ & _ & _ & Hg & Hx & Hy).
  unfold AspectRatio.init.
  apply Z.eqb_neq in Hx, Hy. rewrite Hx, Hy, Hg, !Z.div_1_r. simpl.
  by destruct r.
Qed.

Lemma to_string_from_string_witness :
  AspectRatio.from_string
    (Some (AspectRatio.to_string (AspectRatio.Build (-8) 5)))
  = Ok (Some (AspectRatio.Build (-8) 5)).
Proof. apply (to_string_from_string (-16) 10). reflexivity. Defined.

(** ** The screen ratio *)

(** What [calculate_screen_ratio] prints when it returns: the reduced pair,
    doubled when the reduced height is five. *)
Lemma calculate_screen_ratio_Ok (width height : Z) (s : string) :
  GPU.calculate_screen_ratio width height = Ok s →
  ∃ x y k,
    (0 < Z.gcd width height)%Z
    ∧ width = (x * Z.gcd width height)%Z
    ∧ height = (y * Z.gcd width height)%Z
    ∧ (k = if (y =? 5)%Z then 2 else 1)%Z
    ∧ s = PyStr.str (x * k) +:+ ":" +:+ PyStr.str (y * k).
Proof.
  unfold GPU.calculate_screen_ratio.
  destruct (Z.gcd width height =? 0)%Z eqn:H0; [done|].
  apply Z.eqb_neq in H0. pose proof (Z.gcd_nonneg width height).
  destruct (Z.gcd_divide_l width height) as [qx Hqx].
  destruct (Z.gcd_divide_r width height) as [qy Hqy].
  assert ((width / Z.gcd width height)%Z = qx) as ->
    by (rewrite Hqx at 1; apply Z.div_mul; lia).
  assert ((height / Z.gcd width height)%Z = qy) as ->
    by (rewrite Hqy at 1; apply Z.div_mul; lia).
  intros Hs. exists qx, qy, (if (qy =? 5)%Z then 2 else 1)%Z.
  split; [lia|]. split; [done|]. split; [done|]. split; [done|].
  destruct (qy =? 5)%Z; injection Hs as <-; [done|].
  by rewrite !Z.mul_1_r.
Qed.

(** X7. [calculate_screen_ratio] raises [ZeroDivisionError] exactly for a
    0 x 0 screen. Otherwise it returns ["a:b"] for a pair that reads back,
    stands for the same ratio as width to height ([a * height = b * width]),
    is not [(0, 0)], and whose second component is never 5 (a reduced
    height of 5 is reported as 10, as in ["16:10"]). *)
Theorem calculate_screen_ratio_outcomes (width height : Z) :
  match GPU.calculate_screen_ratio width height with
  | Raise e => e = ZeroDivisionError ∧ width = 0%Z ∧ height = 0%Z
  | Ok s =>
      (width ≠ 0 ∨ height ≠ 0)%Z
      ∧ ∃ a b,
          s = PyStr.str a +:+ ":" +:+ PyStr.str b
          ∧ AspectRatio.parse_pair s = Some (a, b)
          ∧ (a * height = b * width)%Z
          ∧ (a ≠ 0 ∨ b ≠ 0)%Z
          ∧ b ≠ 5%Z
  end.
Proof.
  destruct (GPU.calculate_screen_ratio width height) as [s|e] eqn:Hcalc.
  - destruct (calculate_screen_ratio_Ok _ _ _ Hcalc)
      as (x & y & k & Hg & Hw & Hh & Hk & ->).
    assert (width ≠ 0 ∨ height ≠ 0)%Z as Hnz.
    { destruct (Z.eq_dec width 0%Z) as [Hw0|]; [|by left].
      right. intros Hh0. rewrite Hw0, Hh0 in Hg.
      change (Z.gcd 0 0) with 0%Z in Hg. lia. }
    split; [done|]. exists (x * k)%Z, (y * k)%Z.
    split; [done|]. split; [apply parse_pair_printed|].
    destruct (y =? 5)%Z eqn:Hy; subst k.
    + apply Z.eqb_eq in Hy. repeat split; [nia|lia|lia].
    + apply Z.eqb_neq in Hy. repeat split; [nia| |lia].
      destruct Hnz; [left|right]; nia.
  - unfold GPU.calculate_screen_ratio in Hcalc.
    destruct (Z.gcd width height =? 0)%Z eqn:H0.
    + apply Z.eqb_eq in H0. injection Hcalc as <-.
      split; [done|]. split; [by apply Z.gcd_eq_0_l in H0|].
      by apply Z.gcd_eq_0_r in H0.
    + by destruct (_ =? 5)%Z.
Qed.

(** X8. A rule whose aspect ratio is given as the resolution of the screen
    matches the ratio [calculate_screen_ratio] reports for that screen,
    also when the report is the doubled ["16:10"]. *)
Theorem screen_ratio_matches_resolution
    (width height : Z) (r : AspectRatio.t) :
  AspectRatio.init width height = Ok r →
  ∃ s, GPU.calculate_screen_ratio width height = Ok s
       ∧ AspectRatio.is_equal r s = Ok true.
Proof.
  intros Hinit.
  pose proof (init_Ok _ _ _ Hinit) as (Hw0 & Hh0 & Hg & _).
  destruct (GPU.calculate_screen_ratio width height) as [s|e] eqn:Hcalc.
  - exists s. split; [done|].
    destruct (calculate_screen_ratio_Ok _ _ _ Hcalc)
      as (x & y & k & _ & Hw & Hh & Hk & ->).
    assert (0 < k)%Z as Hkpos by (destruct (y =? 5)%Z; lia).
    apply (is_equal_cross width height (x * k) (y * k) r _ Hinit
             (parse_pair_printed _ _)).
    + left. assert (x ≠ 0)%Z by (intros ->; lia). nia.
    + clear Hinit Hcalc Hk.
      remember (Z.gcd width height) as g eqn:Eg. clear Eg.
      subst width height.
      assert (x ≠ 0)%Z by (intros ->; lia).
      assert (0 < x * x)%Z by nia.
      split; [ring|]. assert (0 < k * g)%Z by nia.
      replace (x * k * (x * g))%Z with ((x * x) * (k * g))%Z by ring. nia.
  - exfalso. unfold GPU.calculate_screen_ratio in Hcalc.
    destruct (Z.gcd width height =? 0)%Z eqn:H0; [|by destruct (_ =? 5)%Z].
    apply Z.eqb_eq in H0. lia.
Qed.

Lemma screen_ratio_matches_resolution_witness :
  ∃ s, GPU.calculate_screen_ratio 1920 1200 = Ok s
       ∧ AspectRatio.is_equal (AspectRatio.Build 8 5) s = Ok true.
Proof. apply screen_ratio_matches_resolution. reflexivity. Defined.

(** X9. With the ratio string [calculate_screen_ratio] returns, [check]
    returns for every configuration: neither its [ValueError] nor its
    [ZeroDivisionError] can occur. *)
Theorem check_returns_on_screen_ratio (width height : Z) (s : string)
    (c : Configuration.t) (vram : Z) (language : string) :
  GPU.calculate_screen_ratio width height = Ok s →
  ∃ passed, Configuration.check c vram s language = Ok passed.
Proof.
  intros Hcalc.
  destruct (calculate_screen_ratio_Ok _ _ _ Hcalc)
    as (x & y & k & Hg & Hw & Hh & Hk & ->).
  unfold Configuration.check, Configuration.check_aspect_ratio.
  destruct (Configuration.aspect_ratio c) as [r|]; [|by eexists].
  unfold AspectRatio.is_equal. rewrite parse_pair_printed.
  destruct (Z.gcd (x * k) (y * k) =? 0)%Z eqn:H0; [|by eexists].
  exfalso. apply Z.eqb_eq in H0.
  pose proof (Z.gcd_eq_0_l _ _ H0) as Hx.
  pose proof (Z.gcd_eq_0_r _ _ H0) as Hy.
  assert (0 < k)%Z as Hkpos by (destruct (y =? 5)%Z; lia).
  assert (x = 0%Z) as Hx0 by (clear -Hx Hkpos; nia).
  assert (y = 0%Z) as Hy0 by (clear -Hy Hkpos; nia).
  rewrite Hx0, Z.mul_0_l in Hw. rewrite Hy0, Z.mul_0_l in Hh.
  rewrite Hw, Hh in Hg. change (Z.gcd 0 0) with 0%Z in Hg. clear -Hg. lia.
Qed.

Lemma check_returns_on_screen_ratio_witness :
  ∃ passed,
    Configuration.check
      (Configuration.Build "Wide" None [] [] None None
         (Some (AspectRatio.Build 21 9)) None)
      8 "16:9" "en" = Ok passed.
Proof.
  apply (check_returns_on_screen_ratio 1920 1080). reflexivity.
Defined.

(** ** More on matching and applying *)

(** X10. A rule whose [max_vram] is not above its [min_vram] never
    passes [check], whatever the machine. *)
Theorem check_empty_vram_range (c : Configuration.t) (mn mx : Z)
    (vram : Z) (ratio_str language : string) :
  Configuration.min_vram c = Some mn →
  Configuration.max_vram c = Some mx →
  (mx ≤ mn)%Z →
  Configuration.check c vram ratio_str language ≠ Ok true.
Proof.
  intros Hmn Hmx Hle. unfold Configuration.check.
  destruct (Configuration.check_aspect_ratio c ratio_str) as [a|e]; [|done].
  simpl. unfold Configuration.check_vram. rewrite Hmn, Hmx.
  intros [= H]. apply andb_true_iff in H as [H _].
  apply andb_true_iff in H as [_ H].
  apply andb_true_iff in H as [H1 H2].
  apply Z.gtb_lt in H1. apply Z.geb_le in H2. lia.
Qed.

Lemma check_empty_vram_range_witness :
  Configuration.check
    (Configuration.Build "Never" None [] [] (Some 8%Z) (Some 8%Z) None None)
    8 "16:9" "en" ≠ Ok true.
Proof.
  apply (check_empty_vram_range _ 8 8); [reflexivity|reflexivity|lia].
Defined.

(** ** More on the mod-list rewrite *)

(** X13. The rewrite looks at the two name lists through membership only:
    lists with the same members, in any order and with any repetition,
    give the same lines. *)
Theorem modify_lines_membership_only
    (enabled enabled' disabled disabled' lines : list string) :
  (∀ m, m ∈ enabled ↔ m ∈ enabled') →
  (∀ m, m ∈ disabled ↔ m ∈ disabled') →
  Profile.modify_lines enabled disabled lines
  = Profile.modify_lines enabled' disabled' lines.
Proof.
  intros Hen Hdis. induction lines as [|line lines IH]; [done|].
  rewrite !modify_lines_cons, IH. f_equal.
  unfold Profile.modify_line.
  destruct (String.length (PyStr.strip line) <? 2); [done|].
  destruct (PyStr.strip line) as [|sign rest]; [done|].
  rewrite (decide_ext _ _ _ _ (Hen (PyStr.strip rest))).
  destruct (decide (PyStr.strip rest ∈ enabled')); [done|].
  by rewrite (decide_ext _ _ _ _ (Hdis (PyStr.strip rest))).
Qed.

Lemma modify_lines_membership_only_witness :
  Profile.modify_lines ["a"; "b"; "a"] ["c"] ["-a"; "+c"; "*b"]
  = Profile.modify_lines ["b"; "a"] ["c"; "c"] ["-a"; "+c"; "*b"].
Proof.
  apply modify_lines_membership_only; intros m;
    rewrite !elem_of_cons, !elem_of_nil; tauto.
Defined.

(** X14. The rewrite emits one line for each input line that is at least
    two characters long once stripped, and none for the others: it never
    adds an entry, and blank or one-character lines are dropped. *)
Theorem modify_lines_length (enabled disabled lines : list string) :
  length (Profile.modify_lines enabled disabled lines)
  = length (filter (λ line, 2 ≤ String.length (PyStr.strip line)) lines)
  ∧ length (Profile.modify_lines enabled disabled lines) ≤ length lines.
Proof.
  assert (length (Profile.modify_lines enabled disabled lines)
          = length (filter (λ line, 2 ≤ String.length (PyStr.strip line))
                      lines)) as Hlen.
  { induction lines as [|line lines IH]; [done|].
    rewrite modify_lines_cons, length_app, IH, filter_cons.
    destruct (modify_line_cases enabled disabled [] line)
      as [[Hlt ->]|(sign & rest & Hs & Hge & ->)].
    - rewrite decide_False by lia. done.
    - rewrite decide_True by done. done. }
  split; [done|]. rewrite Hlen. apply length_filter.
Qed.

(** X15. Writing the lines read from a text gives the text back. *)
Theorem writelines_readlines (text : string) :
  Profile.writelines (Profile.readlines text) = text.
Proof.
  induction text as [|c text IH]; [done|].
  simpl. case_decide as Hc.
  - subst c. simpl. by rewrite IH.
  - destruct (Profile.readlines text) as [|l ls]; simpl in *.
    + by rewrite <- IH.
    + rewrite app_String. by rewrite IH.
Qed.

(** ** More on loading *)

Lemma load_configurations_order_witness :
  Configuration.name <$> [sample_rule]
  = List.filter (Ini.has_section sample_config)
      (PyStr.split "," (Ini.get sample_config "General" "Settings" "")).
Proof.
  apply (load_configurations_order sample_config [sample_rule] sample_groups).
  vm_compute. reflexivity.
Defined.

Lemma split_pieces (sep : ascii) (s : string) :
  Forall (λ w, Forall (λ c, c ≠ sep) (list_ascii_of_string w))
    (PyStr.split sep s).
Proof.
  induction s as [|c s IH]; [by repeat constructor|].
  simpl. case_decide as Hc; [by constructor|].
  destruct (PyStr.split sep s) as [|w ws]; [by repeat constructor|].
  apply Forall_cons in IH as [Hw Hws].
  constructor; [|done]. simpl. by constructor.
Qed.

Lemma kept_group_names (value : string) :
  Forall group_name_ok
    (List.filter Configuration.not_blank (PyStr.split "," value)).
Proof.
  apply Forall_forall. intros m Hm.
  apply list_elem_of_In, List.filter_In in Hm as [Hin Hnb].
  split.
  - unfold Configuration.not_blank in Hnb.
    apply andb_true_iff in Hnb as [_ Hnb].
    intros Hs. by rewrite Hs in Hnb.
  - pose proof (split_pieces "," value) as Hp.
    rewrite Forall_forall in Hp. by apply Hp, list_elem_of_In.
Qed.

Lemma none_if_empty_not_empty (s : string) :
  Configuration.none_if_empty s ≠ Some "".
Proof. by destruct s. Qed.

Lemma from_string_reduced (ratio_str : option string) (r : AspectRatio.t) :
  AspectRatio.from_string ratio_str = Ok (Some r) →
  Z.gcd (AspectRatio.x r) (AspectRatio.y r) = 1%Z
  ∧ AspectRatio.x r ≠ 0%Z ∧ AspectRatio.y r ≠ 0%Z.
Proof.
  unfold AspectRatio.from_string.
  destruct ratio_str as [s|]; [|done].
  destruct (AspectRatio.parse_pair s) as [[a b]|]; [|done].
  destruct (AspectRatio.init a b) as [r'|e] eqn:Hinit; [|done].
  simpl. intros [= ->].
  by apply init_Ok in Hinit as (_ & _ & _ & _ & _ & ? & ? & ?).
Qed.

Lemma load_section_well_formed (config : Ini.ConfigParser)
    (st st' : list Configuration.t * gmap string (list string))
    (section : string) :
  Forall (well_formed_rule config) st.1 →
  Configuration.load_section config st section = Ok st' →
  Forall (well_formed_rule config) st'.1.
Proof.
  intros Hst. unfold Configuration.load_section.
  destruct st as [settings mod_lists].
  destruct (Ini.has_section config section) eqn:Hsec; [|by intros [= <-]].
  destruct (AspectRatio.from_string _) as [ratio|e] eqn:Hratio; [|done].
  simpl. intros [= <-]. simpl. apply Forall_app. split; [done|].
  apply Forall_singleton. unfold well_formed_rule. simpl.
  split; [done|]. split; [apply kept_group_names|].
  split; [apply kept_group_names|].
  split; [apply none_if_empty_not_empty|].
  split; [apply none_if_empty_not_empty|].
  destruct ratio as [r|]; [|done]. by eapply from_string_reduced.
Qed.

Lemma load_sections_well_formed (config : Ini.ConfigParser)
    (names : list string)
    (st st' : list Configuration.t * gmap string (list string)) :
  Forall (well_formed_rule config) st.1 →
  Configuration.load_sections config names st = Ok st' →
  Forall (well_formed_rule config) st'.1.
Proof.
  revert st. induction names as [|section names IH]; intros st Hst.
  - by intros [= <-].
  - simpl.
    destruct (Configuration.load_section config st section) as [st1|e] eqn:H1;
      [|done].
    simpl. apply IH. by eapply load_section_well_formed.
Qed.

(** X19. Every rule [load_configurations] returns is well formed: it is
    named after a section of the rule file, its group names are not blank
    and hold no comma, its profile and its language are absent rather than
    empty, and its aspect ratio, when present, is in lowest terms with no
    zero component. *)
Theorem loaded_rules_well_formed (config : Ini.ConfigParser)
    (settings : list Configuration.t) (mod_lists : gmap string (list string)) :
  Configuration.load_configurations (Some config) = Ok (settings, mod_lists) →
  Forall (well_formed_rule config) settings.
Proof.
  unfold Configuration.load_configurations.
  destruct (Configuration.load_sections config _ ([], ∅))
    as [[settings0 ml0]|e] eqn:Hload; [|done].
  simpl. intros [= <- <-].
  by apply load_sections_well_formed in Hload.
Qed.

Lemma loaded_rules_well_formed_witness :
  Forall (well_formed_rule sample_config) [sample_rule].
Proof.
  apply (loaded_rules_well_formed sample_config [sample_rule] sample_groups).
  vm_compute. reflexivity.
Defined.

Lemma register_groups_only (names : list string)
    (mod_lists : gmap string (list string)) (k : string) :
  is_Some (Configuration.register_groups names mod_lists !! k) →
  is_Some (mod_lists !! k) ∨ k ∈ names.
Proof.
  unfold Configuration.register_groups.
  revert mod_lists. induction names as [|m names IH]; intros ml; [by left|].
  simpl. intros [H|H]%IH; [|right; by apply list_elem_of_further].
  destruct (ml !! m) eqn:Hm; [by left|].
  rewrite lookup_insert in H. case_decide as Hk; [|by left].
  subst k. right. apply list_elem_of_here.
Qed.

Lemma load_section_only_referenced (config : Ini.ConfigParser)
    (st st' : list Configuration.t * gmap string (list string))
    (section : string) :
  (∀ k, is_Some (st.2 !! k) → ∃ c, c ∈ st.1 ∧ k ∈ referenced c) →
  Configuration.load_section config st section = Ok st' →
  ∀ k, is_Some (st'.2 !! k) → ∃ c, c ∈ st'.1 ∧ k ∈ referenced c.
Proof.
  intros Hst. unfold Configuration.load_section.
  destruct st as [settings mod_lists].
  destruct (Ini.has_section config section); [|by intros [= <-]].
  destruct (AspectRatio.from_string _) as [ratio|e]; [|done].
  simpl. intros [= <-] k. cbn [fst snd] in *.
  intros [[H|H]%register_groups_only|H]%register_groups_only.
  - destruct (Hst k H) as (c & Hc & Hk).
    exists c. split; [|done]. apply elem_of_app. by left.
  - eexists. split; [apply elem_of_app; right; apply list_elem_of_here|].
    unfold referenced. simpl. apply elem_of_app. by left.
  - eexists. split; [apply elem_of_app; right; apply list_elem_of_here|].
    unfold referenced. simpl. apply elem_of_app. by right.
Qed.

Lemma load_sections_only_referenced (config : Ini.ConfigParser)
    (names : list string)
    (st st' : list Configuration.t * gmap string (list string)) :
  (∀ k, is_Some (st.2 !! k) → ∃ c, c ∈ st.1 ∧ k ∈ referenced c) →
  Configuration.load_sections config names st = Ok st' →
  ∀ k, is_Some (st'.2 !! k) → ∃ c, c ∈ st'.1 ∧ k ∈ referenced c.
Proof.
  revert st. induction names as [|section names IH]; intros st Hst.
  - by intros [= <-].
  - simpl.
    destruct (Configuration.load_section config st section) as [st1|e] eqn:H1;
      [|done].
    simpl. apply IH. by eapply load_section_only_referenced.
Qed.

(** X20. The mapping [load_configurations] returns has exactly the group
    names the loaded rules refer to as keys, and each key holds the lines of
    the [Mod] value of the section of its name ([[]] when that section has
    no [Mod] option), or [[]] when there is no such section. *)
Theorem loaded_groups_exact (config : Ini.ConfigParser)
    (settings : list Configuration.t) (mod_lists : gmap string (list string)) :
  Configuration.load_configurations (Some config) = Ok (settings, mod_lists) →
  (∀ k, is_Some (mod_lists !! k)
        ↔ ∃ c, c ∈ settings ∧ k ∈ referenced c)
  ∧ (∀ k mods, mod_lists !! k = Some mods →
       mods = if Ini.has_section config k
              then Ini.getlist config k "Mod" else []).
Proof.
  intros Hload.
  pose proof (load_configurations_groups _ _ _ Hload) as [Hkeys _].
  unfold Configuration.load_configurations in Hload.
  destruct (Configuration.load_sections config _ ([], ∅))
    as [[settings0 ml0]|e] eqn:Hsections; [|done].
  simpl in Hload. injection Hload as <- <-.
  assert (groups_registered
            (([], ∅) : list Configuration.t * gmap string (list string)))
    as Hinit.
  { split; [intros c m Hc; by apply elem_of_nil in Hc|].
    intros k v H. cbn [snd] in H. by rewrite lookup_empty in H. }
  pose proof (load_sections_registered _ _ _ _ Hinit Hsections) as [_ Hvals].
  cbn [fst snd] in Hvals.
  split.
  - intros k. split; [|intros (c & Hc & Hk); by eapply Hkeys].
    rewrite fill_groups_lookup. intros [v Hv].
    assert (is_Some (ml0 !! k)) as Hk
      by (destruct (ml0 !! k); [by eexists|done]).
    refine (load_sections_only_referenced config _ ([], ∅) (settings0, ml0)
              _ Hsections k Hk).
    cbn [fst snd]. intros k' [v' Hv']. by rewrite lookup_empty in Hv'.
  - intros k mods. rewrite fill_groups_lookup.
    destruct (ml0 !! k) as [v0|] eqn:Hk; [|done].
    simpl. intros [= <-]. by rewrite (Hvals k v0 Hk).
Qed.

Lemma loaded_groups_exact_witness :
  (∀ k, is_Some (sample_groups !! k)
        ↔ ∃ c, c ∈ [sample_rule] ∧ k ∈ referenced c)
  ∧ (∀ k mods, sample_groups !! k = Some mods →
       mods = if Ini.has_section sample_config k
              then Ini.getlist sample_config k "Mod" else []).
Proof.
  apply (loaded_groups_exact sample_config [sample_rule] sample_groups).
  vm_compute. reflexivity.
Defined.

(** ** More on the assistant *)

(** X21. When no configuration passes its checks, [set_configuration]
    returns and leaves the selected profile, the profile directories and
    every mod list as they were; the log gains the records of the VRAM
    checks that were made, and no other. *)
Theorem set_configuration_no_match (self : ProfileAssistant.t) (w : World) :
  Forall (λ c, Configuration.check c (ProfileAssistant.vram self)
                 (ProfileAssistant.aspect_ratio self)
                 (ProfileAssistant.system_language self) = Ok false)
    (ProfileAssistant.configurations self) →
  ∃ w', ProfileAssistant.set_configuration self w = Ok w'
        ∧ same_state w' w
        ∧ log w'
          = log w
            ++ mjoin ((λ c, Configuration.check_records c
                              (ProfileAssistant.vram self)
                              (ProfileAssistant.aspect_ratio self))
                      <$> ProfileAssistant.configurations self).
Proof.
  unfold ProfileAssistant.set_configuration.
  generalize (Profile.get_profiles w) as profiles. intros profiles Hall.
  revert w. induction Hall as [|c cs Hc _ IH]; intros w.
  - exists w. simpl. by rewrite app_nil_r.
  - simpl. rewrite Hc. simpl.
    destruct (IH (log_all (Configuration.check_records c
                             (ProfileAssistant.vram self)
                             (ProfileAssistant.aspect_ratio self)) w))
      as (w' & -> & Hstate & Hlog).
    exists w'. split; [done|]. split; [done|].
    rewrite Hlog. simpl. by rewrite <- app_assoc.
Qed.

Lemma set_configuration_no_match_witness :
  ∃ w', ProfileAssistant.set_configuration
          (ProfileAssistant.Build 8 "16:9" "en" [sample_rule] sample_groups)
          sample_world = Ok w'
        ∧ same_state w' sample_world
        ∧ log w'
          = log sample_world
            ++ mjoin ((λ c, Configuration.check_records c 8 "16:9")
                      <$> [sample_rule]).
Proof.
  apply (set_configuration_no_match
           (ProfileAssistant.Build 8 "16:9" "en" [sample_rule] sample_groups)).
  apply Forall_singleton. reflexivity.
Defined.

(** ** The language of the system *)

Lemma split_first (sep : ascii) (s : string) :
  ∃ w ws, PyStr.split sep s = w :: ws
          ∧ Forall (λ c, c ≠ sep) (list_ascii_of_string w)
          ∧ (s = w ∨ ∃ r, s = w +:+ String sep r).
Proof.
  induction s as [|c s (w & ws & Hs & Hw & Hrest)].
  - exists "", []. by repeat split; [constructor|left].
  - simpl. case_decide as Hc.
    + subst c. exists "", (PyStr.split sep s).
      split; [done|]. split; [constructor|]. right. by exists s.
    + rewrite Hs. exists (String c w), ws. split; [done|].
      split; [simpl; by constructor|].
      destruct Hrest as [->|[r ->]]; [by left|right; by exists r].
Qed.

(** X22. [get_os_language] returns the part of the locale name before its
    first underscore (all of it when there is none, the empty string when
    there is no locale name): the result has no underscore, and the locale
    name is the result, alone or followed by an underscore and the rest. *)
Theorem get_os_language_prefix (system_language : option string) :
  let language := Utils.get_os_language system_language in
  Forall (λ c, c ≠ "_"%char) (list_ascii_of_string language)
  ∧ (default "" system_language = language
     ∨ ∃ rest, default "" system_language = language +:+ String "_" rest).
Proof.
  cbv zeta. unfold Utils.get_os_language.
  destruct system_language as [s|]; [|by split; [constructor|left]].
  simpl. destruct s as [|c s]; [by split; [constructor|left]|].
  cbn [PyStr.is_empty].
  destruct (split_first "_" (String c s)) as (w & ws & -> & Hw & Hrest).
  split; [done|]. destruct Hrest as [->|[r ->]]; [by left|right; by exists r].
Qed.

(** ** The signs a rule leaves in the file *)

(** X23. After a [do] that had names to enable or disable, every line of
    the rewritten mod list is a sign, a name and a line feed, with the sign
    ['+'] for every name of an enabled group and ['-'] for every name of a
    disabled group that no enabled group holds. *)
Theorem do_signs_in_file (self : Configuration.t) (profiles : list string)
    (mod_lists : gmap string (list string)) (w w' : World) :
  Configuration.do self profiles mod_lists w = Ok w' →
  let raw_enabled := resolve mod_lists (Configuration.enable_mods self) in
  let raw_disabled := resolve mod_lists (Configuration.disable_mods self) in
  raw_enabled ≠ [] ∨ raw_disabled ≠ [] →
  ∃ text',
    modlists w' !! rewritten_file self profiles w = Some text'
    ∧ Forall
        (λ line, ∃ sign name,
           line = String sign (name +:+ Profile.nl)
           ∧ (name ∈ raw_enabled → sign = "+"%char)
           ∧ (name ∉ raw_enabled → name ∈ raw_disabled → sign = "-"%char))
        (Profile.readlines text').
Proof.
  cbv zeta. intros Hdo Hnames.
  destruct (do_as_rewrite self profiles mod_lists w)
    as (w1 & w3 & _ & Hf3 & Heq). cbv zeta in Heq. rewrite Hdo in Heq.
  assert (PyStr.is_nil (resolve mod_lists (Configuration.enable_mods self))
          && PyStr.is_nil (resolve mod_lists (Configuration.disable_mods self))
          = false) as Hnil.
  { destruct (resolve mod_lists (Configuration.enable_mods self));
      destruct (resolve mod_lists (Configuration.disable_mods self));
      try done. by destruct Hnames. }
  rewrite Hnil in Heq. symmetry in Heq.
  pose proof (final_lists_spec
                (resolve mod_lists (Configuration.enable_mods self))
                (resolve mod_lists (Configuration.disable_mods self))) as Hfl.
  destruct (Configuration.final_lists _ _) as [enabled filtered].
  destruct Hfl as (Hen & Hfd & _ & _). cbn [fst snd] in Heq.
  unfold Profile.modify_modlist_file in Heq. rewrite Hf3 in Heq.
  destruct (modlists w !! rewritten_file self profiles w) as [text|]; [|done].
  injection Heq as <-. cbn [modlists]. rewrite lookup_insert_eq.
  eexists. split; [done|].
  rewrite readlines_writelines by apply modify_lines_readable.
  eapply Forall_impl; [apply modify_lines_Emitted|].
  intros line (line0 & sign & rest & _ & _ & _ & ->).
  exists (new_sign enabled filtered sign (PyStr.strip rest)), (PyStr.strip rest).
  split; [done|]. unfold new_sign. split.
  - intros Hin. apply (proj2 (Hen _)) in Hin.
    destruct (decide (PyStr.strip rest ∈ enabled)); done.
  - intros Hnin Hin.
    destruct (decide (PyStr.strip rest ∈ enabled)) as [He|_];
      [by apply Hen in He|].
    destruct (decide (PyStr.strip rest ∈ filtered)) as [|Hf]; [done|].
    exfalso. apply Hf, Hfd. done.
Qed.

Lemma do_signs_in_file_witness :
  ∃ w' text',
    Configuration.do sample_rule ["Default"; "Potato"] sample_groups
      sample_world = Ok w'
    ∧ modlists w' !! rewritten_file sample_rule ["Default"; "Potato"]
                       sample_world = Some text'
    ∧ Forall
        (λ line, ∃ sign name,
           line = String sign (name +:+ Profile.nl)
           ∧ (name ∈ resolve sample_groups
                       (Configuration.enable_mods sample_rule) →
              sign = "+"%char)
           ∧ (name ∉ resolve sample_groups
                       (Configuration.enable_mods sample_rule) →
              name ∈ resolve sample_groups
                       (Configuration.disable_mods sample_rule) →
              sign = "-"%char))
        (Profile.readlines text').
Proof.
  destruct (Configuration.do sample_rule ["Default"; "Potato"] sample_groups
              sample_world) as [w'|e] eqn:Hdo; [|by vm_compute in Hdo].
  destruct (do_signs_in_file sample_rule ["Default"; "Potato"] sample_groups
              sample_world w' Hdo) as (text' & Hfile & Hall).
  - left. vm_compute. discriminate.
  - by exists w', text'.
Defined.
